(** * PokerHandEngine: a shallow embedding of src/lib/PokerHandEngine.ts

    The engine is a mutable object with methods.  It is embedded here as a
    record [Engine] that is passed through every method explicitly.  A method
    that can throw returns an [outcome], which carries the state of the object
    at the moment the method returned or threw: in the source a thrown [Error]
    does not undo the assignments made before it.

    Numbers are JavaScript doubles in the source.  They are embedded as exact
    rationals ([Q]); the chip amounts of the scenarios below (multiples of
    0.5) are represented exactly by both.  The [id] (random UUID) and
    [timestamp] (wall clock) of an action record are left out of the
    embedding: no method of the engine reads them. *)

From Stdlib Require Import ZArith QArith Bool Lia Lqa.
From stdpp Require Import base list strings pretty.

Local Open Scope Z_scope.

(** ** Data model *)

Inductive Position := SB | BB | UTG | HJ | CO | BTN.
Inductive ActionType := Fold | Check | Call | Bet | Raise.
Inductive Phase := Preflop | Flop | Turn | River.

Inductive EngineError :=
| ErrPreflopOnly        (* 'This method is only for preflop actions' *)
| ErrUsePreflop         (* 'Use addPreflopAction for preflop' *)
| ErrNotYourTurn        (* `It's not ${position}'s turn. ...` *)
| ErrAlreadyFolded      (* `${position} has already folded` *)
| ErrFoldWhenCheck      (* 'Cannot fold when you can check' *)
| ErrCheckFacingBet     (* 'Cannot check when there is a bet to call' *)
| ErrNothingToCall      (* 'Nothing to call' *)
| ErrCallZeroStack      (* 'Cannot call with zero stack' *)
| ErrBetFacingBet       (* 'Cannot bet when there is already a bet (use Raise)' *)
| ErrBetNotPositive     (* 'Bet size must be positive' *)
| ErrBetZeroStack       (* 'Cannot bet with zero stack (all-in)' *)
| ErrRaiseNotPositive   (* 'Raise size must be positive' *)
| ErrRaiseTooSmall.     (* 'Raise amount must be greater than current contribution' *)

#[global] Instance Position_eq_dec : EqDecision Position.
Proof. solve_decision. Defined.
#[global] Instance ActionType_eq_dec : EqDecision ActionType.
Proof. solve_decision. Defined.
#[global] Instance Phase_eq_dec : EqDecision Phase.
Proof. solve_decision. Defined.

Record PlayerState := mkPlayer {
  position : Position;
  stack : Q;
  contributed : Q;
  totalContributed : Q;
  folded : bool;
  isHero : bool;
  hasActedThisStreet : bool;
}.

Record HandAction := mkAction {
  a_position : Position;
  a_action : ActionType;
  a_betSize : option Q;
  a_potSize : Q;
  a_phase : Phase;
}.

Record StreetState := mkStreet {
  phase : Phase;
  pot : Q;
  streetStartingPot : Q;
  currentBet : Q;
  lastAggressorIndex : option Z;
  actionsThisStreet : list HandAction;
  raiseCount : Z;
}.

(** Modelled from the spec: the type [HandResult] is declared in
    types/poker, which is not part of the sources at hand; the engine only
    stores it. *)
Record HandResult := mkResult {
  winner : Position;
  heroWon : bool;
  potAwarded : Q;
}.

Record Engine := mkEngine {
  players : list PlayerState;
  street : StreetState;
  actions : list HandAction;
  heroPosition : option Position;
  stackSize : Q;
  currentActorIndex : Z;
  waitingForBoard : bool;
  handResult : option HandResult;
}.

(** The state of the object when a method returns, or when it throws. *)
Inductive outcome :=
| Returned (s : Engine)
| Threw (e : EngineError) (s : Engine)
| OutOfFuel.

Definition bind (o : outcome) (k : Engine -> outcome) : outcome :=
  match o with
  | Returned s => k s
  | Threw e s => Threw e s
  | OutOfFuel => OutOfFuel
  end.

Notation "'do' s <- o ; k" := (bind o (fun s => k))
  (at level 10, s name, o at level 100, k at level 200).

(** ** Numbers *)

Definition num_lt (a b : Q) : bool := negb (Qle_bool b a).   (* a < b *)
Definition num_le (a b : Q) : bool := Qle_bool a b.          (* a <= b *)
Definition num_eq (a b : Q) : bool := Qeq_bool a b.          (* a === b *)
Definition Math_min (a b : Q) : Q := if num_le a b then a else b.

Definition eps : Q := 0.01.

(** ** Field updates *)

Definition set_folded (p : PlayerState) (b : bool) : PlayerState :=
  mkPlayer (position p) (stack p) (contributed p) (totalContributed p)
           b (isHero p) (hasActedThisStreet p).

Definition set_acted (p : PlayerState) (b : bool) : PlayerState :=
  mkPlayer (position p) (stack p) (contributed p) (totalContributed p)
           (folded p) (isHero p) b.

(** [stack -= x; contributed += x; totalContributed += x] *)
Definition pay (p : PlayerState) (x : Q) : PlayerState :=
  mkPlayer (position p) (stack p - x)%Q (contributed p + x)%Q
           (totalContributed p + x)%Q
           (folded p) (isHero p) (hasActedThisStreet p).

Definition reset_street (p : PlayerState) : PlayerState :=
  mkPlayer (position p) (stack p) 0%Q (totalContributed p)
           (folded p) (isHero p) false.

Definition set_players (s : Engine) (ps : list PlayerState) : Engine :=
  mkEngine ps (street s) (actions s) (heroPosition s) (stackSize s)
           (currentActorIndex s) (waitingForBoard s) (handResult s).

Definition set_street (s : Engine) (st : StreetState) : Engine :=
  mkEngine (players s) st (actions s) (heroPosition s) (stackSize s)
           (currentActorIndex s) (waitingForBoard s) (handResult s).

Definition set_actions (s : Engine) (l : list HandAction) : Engine :=
  mkEngine (players s) (street s) l (heroPosition s) (stackSize s)
           (currentActorIndex s) (waitingForBoard s) (handResult s).

Definition set_currentActorIndex (s : Engine) (i : Z) : Engine :=
  mkEngine (players s) (street s) (actions s) (heroPosition s) (stackSize s)
           i (waitingForBoard s) (handResult s).

Definition set_waitingForBoard (s : Engine) (b : bool) : Engine :=
  mkEngine (players s) (street s) (actions s) (heroPosition s) (stackSize s)
           (currentActorIndex s) b (handResult s).

(** ** Seat ring *)

Definition POSITION_ORDER : list Position := [SB; BB; UTG; HJ; CO; BTN].
Definition PREFLOP_START_INDEX : Z := 2.

(** [Array.prototype.indexOf] *)
Fixpoint indexOf {A} `{EqDecision A} (l : list A) (x : A) : Z :=
  match l with
  | [] => -1
  | y :: l' =>
      if decide (y = x) then 0
      else let r := indexOf l' x in if r <? 0 then -1 else r + 1
  end.

Definition getPlayerIndex (pos : Position) : Z := indexOf POSITION_ORDER pos.

(** [players[i]]; the array is built with six entries and never resized, so
    the default is not reached from an index in 0..5. *)
Definition undefined_player : PlayerState :=
  mkPlayer SB 0%Q 0%Q 0%Q true false false.

Definition player_at (ps : list PlayerState) (i : Z) : PlayerState :=
  if i <? 0 then undefined_player
  else default undefined_player (ps !! Z.to_nat i).

Definition position_at (i : Z) : Position :=
  if i <? 0 then SB else default SB (POSITION_ORDER !! Z.to_nat i).

(** ** Constructor *)

Definition initial_player (heroPos : option Position) (stackSz : Q)
    (pos : Position) : PlayerState :=
  mkPlayer pos stackSz 0%Q 0%Q false (bool_decide (Some pos = heroPos)) false.

Definition post_blind (p : PlayerState) (b : Q) : PlayerState :=
  mkPlayer (position p) (stack p - b)%Q b b
           (folded p) (isHero p) (hasActedThisStreet p).

Definition new_engine (heroPos : option Position) (stackSz : Q) : Engine :=
  let ps0 := map (initial_player heroPos stackSz) POSITION_ORDER in
  let sbIndex := getPlayerIndex SB in
  let bbIndex := getPlayerIndex BB in
  let ps1 := <[Z.to_nat sbIndex := post_blind (player_at ps0 sbIndex) 0.5%Q]> ps0 in
  let ps2 := <[Z.to_nat bbIndex := post_blind (player_at ps1 bbIndex) 1.0%Q]> ps1 in
  mkEngine ps2
           (mkStreet Preflop 1.5%Q 1.5%Q 1.0%Q None [] 0)
           [] heroPos stackSz PREFLOP_START_INDEX false None.

(** ** Queries *)

Definition not_folded (p : PlayerState) : bool := negb (folded p).
Definition has_chips (p : PlayerState) : bool := num_lt eps (stack p).

Definition getActivePlayerCount (s : Engine) : Z :=
  Z.of_nat (length (List.filter not_folded (players s))).

(** [!p.folded && p.stack > 0.01] *)
Definition can_act (p : PlayerState) : bool :=
  negb (folded p) && num_lt eps (stack p).

(** The [for (let i = 1; i <= 6; i++)] loop of [getNextActivePlayerIndex];
    [n] counts the iterations that remain. *)
Fixpoint nextActiveLoop (ps : list PlayerState) (startIndex i : Z) (n : nat) : Z :=
  match n with
  | O => -1
  | S n' =>
      let idx := Z.rem (startIndex + i) 6 in
      if can_act (player_at ps idx) then idx
      else nextActiveLoop ps startIndex (i + 1) n'
  end.

Definition getNextActivePlayerIndex (s : Engine) (startIndex : Z) : Z :=
  nextActiveLoop (players s) startIndex 1 6.

Definition canCheck (s : Engine) (pos : Position) : bool :=
  let player := player_at (players s) (getPlayerIndex pos) in
  if folded player then false
  else num_le (currentBet (street s)) (contributed player).

Definition needsToCall (s : Engine) (pos : Position) : bool :=
  let player := player_at (players s) (getPlayerIndex pos) in
  if folded player then false
  else num_lt (contributed player) (currentBet (street s)).

Definition getAvailableActions (s : Engine) (pos : Position) : list ActionType :=
  let player := player_at (players s) (getPlayerIndex pos) in
  if folded player then []
  else if num_lt (stack player) eps then []
  else if canCheck s pos then
    if negb (bool_decide (phase (street s) = Preflop))
       && num_eq (currentBet (street s)) 0
    then [Check; Bet] else [Check; Raise]
  else [Fold; Call; Raise].

Definition isHandComplete (s : Engine) : bool :=
  if getActivePlayerCount s <=? 1 then true
  else if (currentActorIndex s =? -1) && negb (waitingForBoard s) then true
  else false.

Definition getCurrentActor (s : Engine) : option Position :=
  if isHandComplete s || waitingForBoard s then None
  else if currentActorIndex s <? 0 then None
  else POSITION_ORDER !! Z.to_nat (currentActorIndex s).

(** ** Action recorder *)

Definition update_player (s : Engine) (i : Z)
    (f : PlayerState -> PlayerState) : Engine :=
  set_players s (<[Z.to_nat i := f (player_at (players s) i)]> (players s)).

Definition add_to_pot (st : StreetState) (x : Q) : StreetState :=
  mkStreet (phase st) (pot st + x)%Q (streetStartingPot st) (currentBet st)
           (lastAggressorIndex st) (actionsThisStreet st) (raiseCount st).

Definition push_street_action (st : StreetState) (a : HandAction) : StreetState :=
  mkStreet (phase st) (pot st) (streetStartingPot st) (currentBet st)
           (lastAggressorIndex st) (actionsThisStreet st ++ [a]) (raiseCount st).

(** [currentBet = player.contributed; lastAggressorIndex = playerIndex;
    raiseCount += 1] *)
Definition aggress (st : StreetState) (bet : Q) (playerIndex : Z) : StreetState :=
  mkStreet (phase st) (pot st) (streetStartingPot st) bet
           (Some playerIndex) (actionsThisStreet st) (raiseCount st + 1).

(** The part of [recordAction] below the [switch]: mark the player as having
    acted, add to the pot, append the action record to both lists. *)
Definition commit (s : Engine) (pos : Position) (actionType : ActionType)
    (amountToAdd : Q) (actualBetSize : option Q) : Engine :=
  let s1 := update_player s (getPlayerIndex pos) (fun p => set_acted p true) in
  let st := add_to_pot (street s1) amountToAdd in
  let action := mkAction pos actionType actualBetSize (pot st) (phase st) in
  set_actions (set_street s1 (push_street_action st action))
              (actions s1 ++ [action]).

Definition recordAction (pos : Position) (actionType : ActionType)
    (betSize : option Q) (skipValidation : bool) (s : Engine) : outcome :=
  let playerIndex := getPlayerIndex pos in
  let player := player_at (players s) playerIndex in
  if folded player then Threw ErrAlreadyFolded s
  else if negb skipValidation && bool_decide (actionType = Fold)
          && canCheck s pos
          && negb (bool_decide (phase (street s) = Preflop))
  then Threw ErrFoldWhenCheck s
  else
    match actionType with
    | Fold =>
        let s1 := update_player s playerIndex (fun p => set_folded p true) in
        Returned (commit s1 pos Fold 0%Q betSize)
    | Check =>
        if num_lt (contributed player) (currentBet (street s))
        then Threw ErrCheckFacingBet s
        else Returned (commit s pos Check 0%Q betSize)
    | Call =>
        let callAmount := (currentBet (street s) - contributed player)%Q in
        if num_le callAmount 0 then Threw ErrNothingToCall s
        else
          let actualCall := Math_min callAmount (stack player) in
          if num_le actualCall 0 then Threw ErrCallZeroStack s
          else
            let s1 := update_player s playerIndex (fun p => pay p actualCall) in
            Returned (commit s1 pos Call actualCall (Some actualCall))
    | Bet =>
        if num_lt 0 (currentBet (street s)) then Threw ErrBetFacingBet s
        else
          match betSize with
          | None => Threw ErrBetNotPositive s
          | Some size =>
              if num_le size 0 then Threw ErrBetNotPositive s
              else
                let actualBetSize := Math_min size (stack player) in
                if num_le actualBetSize 0 then Threw ErrBetZeroStack s
                else
                  let s1 := update_player s playerIndex
                              (fun p => pay p actualBetSize) in
                  let s2 := set_street s1
                              (aggress (street s1)
                                 (contributed (player_at (players s1) playerIndex))
                                 playerIndex) in
                  Returned (commit s2 pos Bet actualBetSize (Some actualBetSize))
          end
    | Raise =>
        match betSize with
        | None => Threw ErrRaiseNotPositive s
        | Some size =>
            if num_le size 0 then Threw ErrRaiseNotPositive s
            else
              let maxAvailable := (stack player + contributed player)%Q in
              let raiseTotal := Math_min size maxAvailable in
              let additionalAmount := (raiseTotal - contributed player)%Q in
              if num_le additionalAmount 0 then Threw ErrRaiseTooSmall s
              else
                let actualAdditional := Math_min additionalAmount (stack player) in
                let s1 := update_player s playerIndex
                            (fun p => pay p actualAdditional) in
                let s2 := set_street s1
                            (aggress (street s1)
                               (contributed (player_at (players s1) playerIndex))
                               playerIndex) in
                Returned (commit s2 pos Raise actualAdditional
                                 (Some actualAdditional))
        end
    end.

(** ** Completion oracle *)

Definition isStreetComplete (s : Engine) (nextIndex : Z) : bool :=
  let st := street s in
  let activePlayers := List.filter not_folded (players s) in
  let activeCount := length activePlayers in
  if (activeCount <=? 1)%nat then true
  else
    let playersWhoCanAct := List.filter has_chips activePlayers in
    if (length playersWhoCanAct =? 0)%nat then true
    else
      let allActablePlayersActed :=
        forallb hasActedThisStreet playersWhoCanAct in
      if negb allActablePlayersActed then false
      else
        let allMatched :=
          forallb (fun p => num_le (currentBet st) (contributed p)
                            || num_lt (stack p) eps) activePlayers in
        if negb allMatched then false
        else if bool_decide (phase st = Preflop) then
          if (length playersWhoCanAct =? 0)%nat then true
          else
            let bbPlayer := player_at (players s) (getPlayerIndex BB) in
            if negb (folded bbPlayer) && (raiseCount st =? 0) then
              if negb (hasActedThisStreet bbPlayer) && num_lt eps (stack bbPlayer)
              then false
              else true
            else
              match lastAggressorIndex st with
              | Some la =>
                  let lastAggressor := player_at (players s) la in
                  if allActablePlayersActed && allMatched then
                    if num_lt (stack lastAggressor) eps then true
                    else if nextIndex =? la then true
                    else false
                  else false
              | None => false
              end
        else
          if allActablePlayersActed && allMatched then
            if num_eq (currentBet st) 0
               && bool_decide (lastAggressorIndex st = None)
            then true
            else
              match lastAggressorIndex st with
              | Some la =>
                  let lastAggressor := player_at (players s) la in
                  if num_lt (stack lastAggressor) eps then true
                  else if nextIndex =? la then true
                  else false
              | None => false
              end
          else false.

(** ** Street transition gate *)

Definition setPostflopFirstActor (s : Engine) : Engine :=
  let playersWhoCanAct := List.filter can_act (players s) in
  if (length playersWhoCanAct =? 0)%nat then
    let s1 := set_currentActorIndex s (-1) in
    if negb (bool_decide (phase (street s1) = River))
    then set_waitingForBoard s1 true
    else set_waitingForBoard s1 true
  else
    let sbIndex := getPlayerIndex SB in
    let sbPlayer := player_at (players s) sbIndex in
    if can_act sbPlayer then set_currentActorIndex s sbIndex
    else
      let nextIndex := getNextActivePlayerIndex s sbIndex in
      if nextIndex =? -1
      then set_waitingForBoard (set_currentActorIndex s (-1)) true
      else set_currentActorIndex s nextIndex.

Definition phaseOrder : list Phase := [Preflop; Flop; Turn; River].

Definition prepareNextStreet (s : Engine) : Engine :=
  let s1 := set_players s (map reset_street (players s)) in
  let currentPhaseIndex := indexOf phaseOrder (phase (street s1)) in
  if currentPhaseIndex >=? Z.of_nat (length phaseOrder) - 1
  then set_currentActorIndex s1 (-1)
  else
    let nextPhase :=
      default Preflop (phaseOrder !! Z.to_nat (currentPhaseIndex + 1)) in
    let st := street s1 in
    setPostflopFirstActor
      (set_street s1 (mkStreet nextPhase (pot st) (pot st) 0%Q None [] 0)).

Definition confirmBoard (s : Engine) : Engine :=
  if negb (waitingForBoard s) then s
  else
    let playersWhoCanAct := List.filter can_act (players s) in
    if bool_decide (phase (street s) = River) then
      if (length playersWhoCanAct =? 0)%nat
      then set_waitingForBoard (set_currentActorIndex s (-1)) false
      else set_waitingForBoard s false
    else
      if (0 <? length playersWhoCanAct)%nat
      then set_waitingForBoard s false
      else s.

(** ** Turn scheduler *)

Definition advanceToNextActor (s : Engine) : Engine :=
  if getActivePlayerCount s <=? 1 then set_currentActorIndex s (-1)
  else
    let nextIndex := getNextActivePlayerIndex s (currentActorIndex s) in
    let checkIndex :=
      if nextIndex =? -1 then currentActorIndex s else nextIndex in
    if isStreetComplete s checkIndex then
      if bool_decide (phase (street s) = River)
      then set_currentActorIndex s (-1)
      else prepareNextStreet (set_waitingForBoard s true)
    else
      if nextIndex =? -1 then set_currentActorIndex s (-1)
      else set_currentActorIndex s nextIndex.

(** The [while (idx !== endIndex)] loop of [autoFoldBetween].  [processed]
    is the set [processedIndices]; [fuel] bounds the number of iterations
    (see [autoFoldBetween_terminates]). *)
Fixpoint autoFoldLoop (fuel : nat) (idx endIndex : Z) (processed : list Z)
    (s : Engine) : outcome :=
  match fuel with
  | O => if idx =? endIndex then Returned s else OutOfFuel
  | S fuel' =>
      if idx =? endIndex then Returned s
      else if bool_decide (idx ∈ processed) then Returned s
      else if (idx <? 0) || (idx >=? Z.of_nat (length (players s)))
      then Returned s
      else
        do s1 <- (if negb (folded (player_at (players s) idx))
                  then recordAction (position_at idx) Fold None true s
                  else Returned s);
        let nextIdx := getNextActivePlayerIndex s1 idx in
        if (nextIdx =? -1) || (nextIdx =? idx) then Returned s1
        else autoFoldLoop fuel' nextIdx endIndex (idx :: processed) s1
  end.

Definition autoFoldBetween (startIndex endIndex : Z) (s : Engine) : outcome :=
  autoFoldLoop 8 startIndex endIndex [] s.

(** ** Public operations *)

Definition addPreflopAction (pos : Position) (actionType : ActionType)
    (betSize : option Q) (s : Engine) : outcome :=
  if negb (bool_decide (phase (street s) = Preflop))
  then Threw ErrPreflopOnly s
  else
    let actorIndex := getPlayerIndex pos in
    let currentIndex := currentActorIndex s in
    do s1 <- (if negb (actorIndex =? currentIndex)
              then autoFoldBetween currentIndex actorIndex s
              else Returned s);
    let s2 := set_currentActorIndex s1 actorIndex in
    do s3 <- recordAction pos actionType betSize false s2;
    Returned (advanceToNextActor s3).

Definition addPostflopAction (pos : Position) (actionType : ActionType)
    (betSize : option Q) (s : Engine) : outcome :=
  if bool_decide (phase (street s) = Preflop) then Threw ErrUsePreflop s
  else
    let actorIndex := getPlayerIndex pos in
    if negb (actorIndex =? currentActorIndex s) then Threw ErrNotYourTurn s
    else
      do s1 <- recordAction pos actionType betSize false s;
      Returned (advanceToNextActor s1).

(** ** Sequences of calls *)

Inductive Command :=
| PreflopAction (pos : Position) (actionType : ActionType) (betSize : option Q)
| PostflopAction (pos : Position) (actionType : ActionType) (betSize : option Q)
| ConfirmBoard.

Definition run (c : Command) (s : Engine) : outcome :=
  match c with
  | PreflopAction pos a sz => addPreflopAction pos a sz s
  | PostflopAction pos a sz => addPostflopAction pos a sz s
  | ConfirmBoard => Returned (confirmBoard s)
  end.

(** The object after a call, whether the call returned or threw. *)
Definition state_after (s : Engine) (o : outcome) : Engine :=
  match o with
  | Returned s' => s'
  | Threw _ s' => s'
  | OutOfFuel => s
  end.

Definition run_all (cs : list Command) (s : Engine) : Engine :=
  foldl (fun st c => state_after st (run c st)) s cs.

Definition threw (o : outcome) : bool :=
  match o with Threw _ _ => true | _ => false end.

Definition summary (a : HandAction) : Position * ActionType * option Q :=
  (a_position a, a_action a, a_betSize a).

Definition performed (a : HandAction) : Position * ActionType :=
  (a_position a, a_action a).

(** ** Notions used in the properties *)

(** The player array has its six entries. *)
Definition wf (s : Engine) : Prop := length (players s) = 6%nat.

(** [s'] has as many players as [s], and every seat folded in [s] is folded
    in [s']. *)
Definition keeps (s s' : Engine) : Prop :=
  length (players s') = length (players s) /\
  forall j, folded (player_at (players s) j) = true ->
            folded (player_at (players s') j) = true.

(** The state after the internal auto-fold of seat [i]. *)
Definition autoFolded (i : Z) (s : Engine) : Engine :=
  commit (update_player s i (fun p => set_folded p true))
         (position_at i) Fold 0%Q None.

(** The states an engine can be in: a new engine, then any sequence of
    calls, accepted or rejected. *)
Inductive reachable : Engine -> Prop :=
| reachable_new (hero : option Position) (stackSz : Q) :
    reachable (new_engine hero stackSz)
| reachable_call (s : Engine) (c : Command) :
    reachable s -> reachable (state_after s (run c s)).





(** The seat [k] places clockwise of seat [c]. *)
Definition seat_after (c k : Z) : Z := (c + k) mod 6.

(** The number of places from seat [c] clockwise to seat [t]. *)
Definition clockwise_distance (c t : Z) : Z := (t - c) mod 6.

(** The seats strictly between [c] and [t], clockwise. *)
Definition seats_between (c t : Z) : list Z :=
  map (seat_after c) (seqZ 1 (clockwise_distance c t - 1)).

(** The seats the skip folds, in order: the current actor [c] unless it is
    already folded, then every seat between [c] and the named seat [t] that
    is not folded and has more than 0.01 behind. *)
Definition skipped_seats (s : Engine) (c t : Z) : list Z :=
  (if folded (player_at (players s) c) then [] else [c])
  ++ List.filter (fun j => can_act (player_at (players s) j))
                 (seats_between c t).

(** The seats after offset [k] of [c] and before [t] that can act in [s]. *)
Definition to_fold_after (c t : Z) (s : Engine) (k : Z) : list Z :=
  List.filter (fun j => can_act (player_at (players s) j))
              (map (seat_after c)
                   (seqZ (k + 1) (clockwise_distance c t - k - 1))).

(** ** Notions used in the further properties *)

Definition aggressive (a : ActionType) : bool :=
  match a with Bet | Raise => true | _ => false end.

Definition moves_chips (a : ActionType) : bool :=
  match a with Call | Bet | Raise => true | _ => false end.

(** [s'] is [s] after seat [pos] has been recorded doing [a], moving [x]
    chips, the record carrying the size [bs]. *)
Definition recorded (pos : Position) (a : ActionType) (x : Q) (bs : option Q)
    (s s' : Engine) : Prop :=
  let i := getPlayerIndex pos in
  let p := player_at (players s) i in
  let record := mkAction pos a bs (pot (street s) + x)%Q (phase (street s)) in
  folded p = false /\
  (if moves_chips a then (0 < x)%Q /\ (x <= stack p)%Q else x = 0%Q) /\
  exists p',
    players s' = <[Z.to_nat i := p']> (players s) /\
    position p' = position p /\
    isHero p' = isHero p /\
    hasActedThisStreet p' = true /\
    folded p' = bool_decide (a = Fold) /\
    (stack p' == stack p - x)%Q /\
    (contributed p' == contributed p + x)%Q /\
    (totalContributed p' == totalContributed p + x)%Q /\
    street s'
    = mkStreet (phase (street s)) (pot (street s) + x)%Q
        (streetStartingPot (street s))
        (if aggressive a then contributed p' else currentBet (street s))
        (if aggressive a then Some i else lastAggressorIndex (street s))
        (actionsThisStreet (street s) ++ [record])
        (if aggressive a then raiseCount (street s) + 1
         else raiseCount (street s)) /\
    actions s' = actions s ++ [record] /\
    heroPosition s' = heroPosition s /\
    stackSize s' = stackSize s /\
    currentActorIndex s' = currentActorIndex s /\
    waitingForBoard s' = waitingForBoard s /\
    handResult s' = handResult s.


(** The street after [ph]; River has none. *)
Definition next_phase (ph : Phase) : Phase :=
  match ph with Preflop => Flop | Flop => Turn | Turn => River | River => River end.

Definition phase_index (ph : Phase) : Z := indexOf phaseOrder ph.

(** The sum of the players' hand-total contributions. *)
Definition sum_totalContributed (ps : list PlayerState) : Q :=
  foldr (fun p acc => (totalContributed p + acc)%Q) 0%Q ps.

(** What the ledger of one player satisfies, for starting stack [sz]. *)
Definition ledger_player (sz : Q) (p : PlayerState) : Prop :=
  (0 <= contributed p)%Q /\
  (contributed p <= totalContributed p)%Q /\
  (stack p + totalContributed p == sz)%Q /\
  ((1 <= sz)%Q -> (0 <= stack p)%Q).

Definition ledger (s : Engine) : Prop :=
  Forall (ledger_player (stackSize s)) (players s) /\
  (pot (street s) == sum_totalContributed (players s))%Q /\
  (1.5 <= streetStartingPot (street s))%Q /\
  (streetStartingPot (street s) <= pot (street s))%Q.

(** How [raiseCount], [lastAggressorIndex] and [currentBet] hang together. *)
Definition contract (s : Engine) : Prop :=
  0 <= raiseCount (street s) /\
  (raiseCount (street s) = 0 <-> lastAggressorIndex (street s) = None) /\
  (forall la, lastAggressorIndex (street s) = Some la -> 0 <= la < 6) /\
  (phase (street s) = Preflop -> (0 < currentBet (street s))%Q) /\
  (phase (street s) <> Preflop ->
     raiseCount (street s) = 0 -> (currentBet (street s) == 0)%Q) /\
  (0 < raiseCount (street s) -> (0 < currentBet (street s))%Q).

Definition books (s : Engine) : Prop := ledger s /\ contract s.



Definition getPot (s : Engine) : Q := pot (street s).
Definition getPhase (s : Engine) : Phase := phase (street s).
Definition getCurrentBet (s : Engine) : Q := currentBet (street s).
Definition getRaiseCount (s : Engine) : Z := raiseCount (street s).

(** A state used to illustrate the properties: hero BTN opens to 3, BB
    calls (UTG, HJ, CO and SB are folded by the skip), the flop is
    confirmed, BB bets 4. *)
Definition flop_bet_state : Engine :=
  run_all [PreflopAction BTN Raise (Some 3%Q); PreflopAction BB Call None;
           ConfirmBoard; PostflopAction BB Bet (Some 4%Q)]
          (new_engine (Some BTN) 100).

(** The players sit in ring order and carry the hero mark of the engine. *)
Definition seats_ok (s : Engine) : Prop :=
  map position (players s) = POSITION_ORDER /\
  map isHero (players s)
  = map (fun pos => bool_decide (Some pos = heroPosition s)) POSITION_ORDER.

(** [players.find(p => p.position === pos)] *)
Definition find_player (ps : list PlayerState) (pos : Position)
    : option PlayerState :=
  List.find (fun p => bool_decide (position p = pos)) ps.

(** Earlier entries of [l] are related to later ones. *)
Definition ordered {A} (R : A -> A -> Prop) (l : list A) : Prop :=
  forall (i j : nat) (x y : A),
    (i < j)%nat -> l !! i = Some x -> l !! j = Some y -> R x y.

Definition is_aggressive (r : HandAction) : bool := aggressive (a_action r).

Definition by_seat (i : Z) (r : HandAction) : bool :=
  bool_decide (a_position r = position_at i).

Definition fold_by_seat (i : Z) (r : HandAction) : bool :=
  bool_decide (performed r = (position_at i, Fold)).

(** The history and the street fields that summarise it. *)
Definition journal (s : Engine) : Prop :=
  let ats := actionsThisStreet (street s) in
  (exists old,
     actions s = old ++ ats /\
     Forall (fun r => phase_index (a_phase r)
                      < phase_index (phase (street s))) old) /\
  Forall (fun r => a_phase r = phase (street s)) ats /\
  ordered (fun r1 r2 => phase_index (a_phase r1) <= phase_index (a_phase r2))
          (actions s) /\
  raiseCount (street s) = Z.of_nat (length (List.filter is_aggressive ats)) /\
  lastAggressorIndex (street s)
  = (fun r => getPlayerIndex (a_position r))
      <$> last (List.filter is_aggressive ats) /\
  ordered (fun r1 r2 => (a_potSize r1 <= a_potSize r2)%Q) (actions s) /\
  Forall (fun r => (a_potSize r <= pot (street s))%Q) (actions s) /\
  (forall r, last (actions s) = Some r -> a_potSize r = pot (street s)).

(** The players' flags and the history. *)
Definition flags_ok (s : Engine) : Prop :=
  forall i, 0 <= i < 6 ->
    hasActedThisStreet (player_at (players s) i)
    = existsb (by_seat i) (actionsThisStreet (street s)) /\
    length (List.filter (fold_by_seat i) (actions s))
    = (if folded (player_at (players s) i) then 1 else 0)%nat.

(** What every call preserves or moves in one direction only. *)
Definition progress (s s' : Engine) : Prop :=
  actions s `prefix_of` actions s' /\
  phase_index (phase (street s)) <= phase_index (phase (street s')) /\
  (pot (street s) <= pot (street s'))%Q /\
  (forall j, (stack (player_at (players s') j)
              <= stack (player_at (players s) j))%Q /\
             (totalContributed (player_at (players s) j)
              <= totalContributed (player_at (players s') j))%Q) /\
  stackSize s' = stackSize s /\
  heroPosition s' = heroPosition s /\
  handResult s' = handResult s.

(** ** The remaining methods of the engine *)

Definition isWaitingForBoard (s : Engine) : bool := waitingForBoard s.
Definition canAdvanceStreet (s : Engine) : bool := waitingForBoard s.

Definition forceAdvanceToNextStreet (s : Engine) : Engine :=
  if waitingForBoard s then confirmBoard s else s.




Definition set_handResult (s : Engine) (r : option HandResult) : Engine :=
  mkEngine (players s) (street s) (actions s) (heroPosition s) (stackSize s)
           (currentActorIndex s) (waitingForBoard s) r.

(** [setHandResult]: [None] stands for the thrown
    'Cannot set result for incomplete hand', which leaves the engine as it
    was. *)
Definition setHandResult (r : HandResult) (s : Engine) : option Engine :=
  if negb (isHandComplete s) then None
  else Some (set_handResult s (Some r)).

Definition getHandResult (s : Engine) : option HandResult := handResult s.

Definition isReadyForResult (s : Engine) : bool :=
  isHandComplete s && bool_decide (handResult s = None).

(** The scheduler and the gate: the board gate is only ever closed after
    Preflop, and the actor index is -1 or a seat. *)
Definition gate_ok (s : Engine) : Prop :=
  (waitingForBoard s = true -> phase (street s) <> Preflop) /\
  -1 <= currentActorIndex s < 6.

(** [getRaiseLabel]: the template literal prints the integer in decimal. *)
Definition getRaiseLabel (s : Engine) : string :=
  if bool_decide (phase (street s) = Preflop) then
    if raiseCount (street s) =? 0 then "Open"
    else if raiseCount (street s) =? 1 then "3-bet"
    else if raiseCount (street s) =? 2 then "4-bet"
    else pretty (raiseCount (street s) + 2) +:+ "-bet"
  else
    if num_eq (currentBet (street s)) 0 then "Bet"
    else if raiseCount (street s) =? 1 then "Raise"
    else "Re-raise".

(** ** The state snapshot and the views that read it *)

(** What [getState()] returns: copies of the players and of the history,
    and the values of the read-only queries. *)
Record EngineState := mkEngineState {
  es_players : list PlayerState;
  es_pot : Q;
  es_phase : Phase;
  es_currentActor : option Position;
  es_actions : list HandAction;
  es_isComplete : bool;
  es_currentBet : Q;
  es_waitingForBoard : bool;
}.

Definition getState (s : Engine) : EngineState :=
  mkEngineState (players s) (pot (street s)) (phase (street s))
                (getCurrentActor s) (actions s) (isHandComplete s)
                (currentBet (street s)) (waitingForBoard s).

(** *** The action panel *)

(** One entry of [EnhancedPokerState.players]. *)
Record PanelPlayer := mkPanelPlayer {
  pp_position : Position;
  pp_folded : bool;
  pp_isHero : bool;
  pp_contributed : Q;
}.

(** The fields of [EnhancedPokerState] that the panel's helper functions
    read. *)
Record PanelState := mkPanelState {
  ps_currentPhase : Phase;
  ps_currentActor : option Position;
  ps_currentBet : Q;
  ps_actions : list HandAction;
  ps_availableActions : list ActionType;
  ps_players : list PanelPlayer;
}.

(** [{ position: p.position, folded: p.folded, isHero: p.isHero,
      contributed: p.contributed }] *)
Definition panel_player (p : PlayerState) : PanelPlayer :=
  mkPanelPlayer (position p) (folded p) (isHero p) (contributed p).

(** The state handed to the panel, as the hook listed in
    docs/ARCHITECTURE.md fills it from [getState()]:
    [availableActions] is empty when there is no current actor or the engine
    waits for the board, and [engine.getAvailableActions(currentActor)]
    otherwise; each player is cut down to four fields. *)
Definition enhancedState (s : Engine) : PanelState :=
  let state := getState s in
  mkPanelState
    (es_phase state) (es_currentActor state) (es_currentBet state)
    (es_actions state)
    (match es_currentActor state with
     | None => []
     | Some actor =>
         if es_waitingForBoard state then []
         else getAvailableActions s actor
     end)
    (map panel_player (es_players state)).

(** [state.actions.some(a => a.position === position &&
                             a.phase === currentPhase)] *)
Definition hasActed (st : PanelState) (pos : Position) : bool :=
  existsb (fun a => bool_decide (a_position a = pos)
                    && bool_decide (a_phase a = ps_currentPhase st))
          (ps_actions st).

Definition panel_find (st : PanelState) (pos : Position)
    : option PanelPlayer :=
  List.find (fun p => bool_decide (pp_position p = pos)) (ps_players st).

Definition hasFolded (st : PanelState) (pos : Position) : bool :=
  match panel_find st pos with
  | Some player => pp_folded player
  | None => false
  end.

Definition isActive (st : PanelState) (pos : Position) : bool :=
  negb (hasFolded st pos).

(** [state.availableActions] is an array, which is truthy also when empty,
    so the second test is [state.currentActor === position] alone. *)
Definition getActionsForPosition (st : PanelState) (pos : Position)
    : list ActionType :=
  if negb (bool_decide (ps_currentPhase st = Preflop))
     && negb (bool_decide (Some pos = ps_currentActor st))
  then []
  else if bool_decide (ps_currentActor st = Some pos)
  then ps_availableActions st
  else
    match panel_find st pos with
    | None => []
    | Some player =>
        if pp_folded player then []
        else if num_le (ps_currentBet st) (pp_contributed player) then
          if negb (bool_decide (ps_currentPhase st = Preflop))
             && num_eq (ps_currentBet st) 0
          then [Check; Bet]
          else [Check; Raise]
        else [Fold; Call; Raise]
    end.

(** *** The action log *)





Record PhaseGroups := mkGroups {
  g_Preflop : list HandAction;
  g_Flop : list HandAction;
  g_Turn : list HandAction;
  g_River : list HandAction;
}.

Definition group (g : PhaseGroups) (ph : Phase) : list HandAction :=
  match ph with
  | Preflop => g_Preflop g | Flop => g_Flop g
  | Turn => g_Turn g | River => g_River g
  end.

(** [groups[action.phase].push(action)] *)
Definition push_group (g : PhaseGroups) (action : HandAction) : PhaseGroups :=
  match a_phase action with
  | Preflop => mkGroups (g_Preflop g ++ [action]) (g_Flop g) (g_Turn g)
                        (g_River g)
  | Flop => mkGroups (g_Preflop g) (g_Flop g ++ [action]) (g_Turn g)
                     (g_River g)
  | Turn => mkGroups (g_Preflop g) (g_Flop g) (g_Turn g ++ [action])
                     (g_River g)
  | River => mkGroups (g_Preflop g) (g_Flop g) (g_Turn g)
                      (g_River g ++ [action])
  end.

(** Every [Phase] is a key of [groups], so the fallback branch for an
    invalid phase is never taken. *)
Definition groupActionsByPhase (actions : list HandAction) : PhaseGroups :=
  foldl push_group (mkGroups [] [] [] []) actions.

(** [Object.entries(groups)], in the order the keys were written. *)
Definition entries (g : PhaseGroups) : list (Phase * list HandAction) :=
  [(Preflop, g_Preflop g); (Flop, g_Flop g); (Turn, g_Turn g);
   (River, g_River g)].

(** [potInfo.potByPhase] of the analysis data. *)
Definition potByPhase (actions : list HandAction) : list (Phase * Q) :=
  map (fun e => (fst e, match last (snd e) with
                        | Some r => a_potSize r
                        | None => 0%Q
                        end))
      (entries (groupActionsByPhase actions)).

(** [summary.phases] of the analysis data. *)
Definition summary_phases (actions : list HandAction) : list Phase :=
  map fst (List.filter (fun e => (0 <? length (snd e))%nat)
                       (entries (groupActionsByPhase actions))).




(** A state with an all-in seat that is not to act: UTG has moved all its
    chips in before the flop. *)
Definition utg_all_in_state : Engine :=
  run_all [PreflopAction UTG Raise (Some 100%Q)] (new_engine None 100).




(** * Properties *)

(** ** Basic facts *)

Lemma getPlayerIndex_range (pos : Position) : 0 <= getPlayerIndex pos < 6.
Proof. destruct pos; vm_compute; split; congruence. Qed.

Lemma num_lt_spec (a b : Q) : num_lt a b = true <-> (a < b)%Q.
Proof.
  unfold num_lt. rewrite negb_true_iff. split.
  - intros H. apply Qnot_le_lt. intros Hle.
    apply Qle_bool_iff in Hle. congruence.
  - intros H. destruct (Qle_bool b a) eqn:E; [|reflexivity].
    apply Qle_bool_iff in E. lra.
Qed.

Lemma num_lt_false (a b : Q) : num_lt a b = false <-> (b <= a)%Q.
Proof.
  unfold num_lt. rewrite negb_false_iff. apply Qle_bool_iff.
Qed.

Lemma num_le_spec (a b : Q) : num_le a b = true <-> (a <= b)%Q.
Proof. apply Qle_bool_iff. Qed.

Lemma num_le_false (a b : Q) : num_le a b = false <-> (b < a)%Q.
Proof.
  unfold num_le. split.
  - intros H. apply Qnot_le_lt. intros Hle.
    apply Qle_bool_iff in Hle. congruence.
  - intros H. destruct (Qle_bool a b) eqn:E; [|reflexivity].
    apply Qle_bool_iff in E. lra.
Qed.

Lemma num_eq_spec (a b : Q) : num_eq a b = true <-> (a == b)%Q.
Proof. apply Qeq_bool_iff. Qed.

Lemma player_at_lookup (ps : list PlayerState) (i : Z) :
  0 <= i < Z.of_nat (length ps) ->
  ps !! Z.to_nat i = Some (player_at ps i).
Proof.
  intros Hi. unfold player_at.
  destruct (i <? 0) eqn:E; [lia|].
  destruct (ps !! Z.to_nat i) eqn:El; [reflexivity|].
  apply lookup_ge_None in El. lia.
Qed.

Lemma player_at_insert_eq (ps : list PlayerState) (i : Z) (p : PlayerState) :
  0 <= i < Z.of_nat (length ps) ->
  player_at (<[Z.to_nat i := p]> ps) i = p.
Proof.
  intros Hi. unfold player_at.
  destruct (i <? 0) eqn:E; [lia|].
  rewrite list_lookup_insert_eq by lia. reflexivity.
Qed.

Lemma player_at_insert_ne (ps : list PlayerState) (i j : Z) (p : PlayerState) :
  0 <= i -> i <> j ->
  player_at (<[Z.to_nat i := p]> ps) j = player_at ps j.
Proof.
  intros Hi Hne. unfold player_at.
  destruct (j <? 0) eqn:E; [reflexivity|].
  rewrite list_lookup_insert_ne by lia. reflexivity.
Qed.

(** ** C9: [confirmBoard] outside the board gate *)

(** C9. In every state with [waitingForBoard = false], [confirmBoard()]
    returns at its guard: the whole state after the call is the state
    before it. *)
Theorem confirmBoard_not_waiting_noop (s : Engine) :
  waitingForBoard s = false -> confirmBoard s = s.
Proof.
  intros Hw. unfold confirmBoard. rewrite Hw. reflexivity.
Qed.

Lemma confirmBoard_not_waiting_noop_witness :
  confirmBoard (new_engine (Some BTN) 100) = new_engine (Some BTN) 100.
Proof.
  apply (confirmBoard_not_waiting_noop (new_engine (Some BTN) 100)).
  reflexivity.
Defined.

(** ** C10: the legal action set *)

(** C10. With the six-entry player array, [getAvailableActions(seat)] reads
    an existing entry (so no access can throw) and returns: the empty list
    when the seat is folded or has a stack below 0.01; otherwise
    [Check; Bet] when the seat's contribution is at least [currentBet], the
    phase is not Preflop and [currentBet] is 0; [Check; Raise] when the
    contribution is at least [currentBet] in the remaining cases; and
    [Fold; Call; Raise] when the contribution is below [currentBet]. *)
Theorem getAvailableActions_cases (s : Engine) (pos : Position) :
  wf s ->
  exists p,
    players s !! Z.to_nat (getPlayerIndex pos) = Some p /\
    (folded p = true \/ (stack p < eps)%Q ->
       getAvailableActions s pos = []) /\
    (folded p = false -> (eps <= stack p)%Q ->
       ((currentBet (street s) <= contributed p)%Q ->
          (phase (street s) <> Preflop -> (currentBet (street s) == 0)%Q ->
             getAvailableActions s pos = [Check; Bet]) /\
          (phase (street s) = Preflop \/ ~ (currentBet (street s) == 0)%Q ->
             getAvailableActions s pos = [Check; Raise])) /\
       ((contributed p < currentBet (street s))%Q ->
          getAvailableActions s pos = [Fold; Call; Raise])).
Proof.
  intros Hwf. pose proof (getPlayerIndex_range pos) as Hr.
  exists (player_at (players s) (getPlayerIndex pos)).
  split; [apply player_at_lookup; rewrite Hwf; lia|].
  unfold getAvailableActions, canCheck.
  set (p := player_at (players s) (getPlayerIndex pos)).
  split.
  - intros [Hf | Hs].
    + rewrite Hf. reflexivity.
    + destruct (folded p); [reflexivity|].
      apply num_lt_spec in Hs. rewrite Hs. reflexivity.
  - intros Hf Hs. rewrite Hf.
    apply num_lt_false in Hs. rewrite Hs.
    split.
    + intros Hc. apply num_le_spec in Hc. rewrite Hc.
      split.
      * intros Hph Hz. apply num_eq_spec in Hz. rewrite Hz.
        rewrite bool_decide_eq_false_2 by exact Hph. reflexivity.
      * intros [Hph | Hz].
        -- rewrite bool_decide_eq_true_2 by exact Hph. reflexivity.
        -- destruct (num_eq (currentBet (street s)) 0) eqn:E.
           ++ apply num_eq_spec in E. contradiction.
           ++ rewrite andb_false_r. reflexivity.
    + intros Hc. apply num_le_false in Hc. rewrite Hc. reflexivity.
Qed.

Lemma getAvailableActions_cases_witness :
  exists p,
    players (new_engine None 100) !! Z.to_nat (getPlayerIndex UTG) = Some p /\
    (folded p = true \/ (stack p < eps)%Q ->
       getAvailableActions (new_engine None 100) UTG = []) /\
    (folded p = false -> (eps <= stack p)%Q ->
       ((currentBet (street (new_engine None 100)) <= contributed p)%Q ->
          (phase (street (new_engine None 100)) <> Preflop ->
           (currentBet (street (new_engine None 100)) == 0)%Q ->
             getAvailableActions (new_engine None 100) UTG = [Check; Bet]) /\
          (phase (street (new_engine None 100)) = Preflop \/
           ~ (currentBet (street (new_engine None 100)) == 0)%Q ->
             getAvailableActions (new_engine None 100) UTG = [Check; Raise])) /\
       ((contributed p < currentBet (street (new_engine None 100)))%Q ->
          getAvailableActions (new_engine None 100) UTG = [Fold; Call; Raise])).
Proof.
  apply (getAvailableActions_cases (new_engine None 100) UTG).
  reflexivity.
Defined.

(** ** C7: the size of a Raise is the total target contribution *)

Lemma Math_min_le_r (a b : Q) : (Math_min a b <= b)%Q.
Proof.
  unfold Math_min. destruct (num_le a b) eqn:E.
  - apply num_le_spec in E. exact E.
  - lra.
Qed.

Lemma Math_min_le_l (a b : Q) : (Math_min a b <= a)%Q.
Proof.
  unfold Math_min. destruct (num_le a b) eqn:E.
  - lra.
  - apply num_le_false in E. lra.
Qed.

Lemma Math_min_l (a b : Q) : (a <= b)%Q -> Math_min a b = a.
Proof.
  intros H. unfold Math_min. apply num_le_spec in H. rewrite H. reflexivity.
Qed.

Lemma player_at_update_player (s : Engine) (i : Z)
    (f : PlayerState -> PlayerState) :
  0 <= i < Z.of_nat (length (players s)) ->
  player_at (players (update_player s i f)) i = f (player_at (players s) i).
Proof. intros Hi. simpl. apply player_at_insert_eq. exact Hi. Qed.

Lemma length_update_player (s : Engine) (i : Z)
    (f : PlayerState -> PlayerState) :
  length (players (update_player s i f)) = length (players s).
Proof. simpl. apply length_insert. Qed.

Lemma player_at_commit (s : Engine) (pos : Position) (a : ActionType)
    (x : Q) (b : option Q) :
  wf s ->
  player_at (players (commit s pos a x b)) (getPlayerIndex pos)
  = set_acted (player_at (players s) (getPlayerIndex pos)) true.
Proof.
  intros Hwf. pose proof (getPlayerIndex_range pos) as Hr.
  unfold commit. simpl. apply player_at_insert_eq. rewrite Hwf. lia.
Qed.



(** ** The seat ring and the skip loop *)

Lemma can_act_undefined : can_act undefined_player = false.
Proof. reflexivity. Qed.

Lemma can_act_in_range (ps : list PlayerState) (i : Z) :
  can_act (player_at ps i) = true -> 0 <= i < Z.of_nat (length ps).
Proof.
  unfold player_at. destruct (i <? 0) eqn:E.
  - rewrite can_act_undefined. discriminate.
  - destruct (ps !! Z.to_nat i) eqn:El.
    + intros _. apply lookup_lt_Some in El. lia.
    + simpl. rewrite can_act_undefined. discriminate.
Qed.

Lemma nextActiveLoop_range (ps : list PlayerState) (startIndex : Z) (n : nat) :
  forall i,
    nextActiveLoop ps startIndex i n = -1 \/
    (0 <= nextActiveLoop ps startIndex i n < 6 /\
     can_act (player_at ps (nextActiveLoop ps startIndex i n)) = true).
Proof.
  induction n as [|n IH]; intros i; simpl.
  - left. reflexivity.
  - destruct (can_act (player_at ps (Z.rem (startIndex + i) 6))) eqn:E.
    + right. split; [|exact E].
      pose proof (can_act_in_range _ _ E) as Hr.
      pose proof (Z.rem_bound_abs (startIndex + i) 6 ltac:(lia)). lia.
    + apply IH.
Qed.

Lemma getNextActivePlayerIndex_range (s : Engine) (startIndex : Z) :
  getNextActivePlayerIndex s startIndex = -1 \/
  (0 <= getNextActivePlayerIndex s startIndex < 6 /\
   can_act (player_at (players s) (getNextActivePlayerIndex s startIndex)) = true).
Proof. apply nextActiveLoop_range. Qed.

Lemma recordAction_no_OutOfFuel (pos : Position) (a : ActionType)
    (sz : option Q) (skip : bool) (s : Engine) :
  recordAction pos a sz skip s <> OutOfFuel.
Proof.
  unfold recordAction.
  repeat (match goal with
          | |- context [if ?c then _ else _] => destruct c
          | |- context [match ?x with _ => _ end] => destruct x
          end; try discriminate).
Qed.

(** Every index that the loop adds to [processedIndices] is the start index or
    one of the six seats, and no index is added twice: eight iterations are
    never exhausted. *)
Lemma autoFoldLoop_fuel (universe : list Z) (endIndex : Z) :
  (forall j, 0 <= j < 6 -> j ∈ universe) ->
  forall fuel idx processed s,
    idx ∈ universe ->
    NoDup processed ->
    (forall x, x ∈ processed -> x ∈ universe) ->
    (length universe < fuel + length processed)%nat ->
    autoFoldLoop fuel idx endIndex processed s <> OutOfFuel.
Proof.
  intros Hseats. induction fuel as [|fuel IH];
    intros idx processed s Hidx Hnd Hsub Hlen.
  - exfalso.
    pose proof (submseteq_length _ _ (NoDup_submseteq _ _ Hnd Hsub)). lia.
  - simpl. destruct (idx =? endIndex); [discriminate|].
    destruct (bool_decide (idx ∈ processed)) eqn:Ein; [discriminate|].
    apply bool_decide_eq_false in Ein.
    destruct ((idx <? 0) || (idx >=? Z.of_nat (length (players s))));
      [discriminate|].
    destruct (negb (folded (player_at (players s) idx))).
    + destruct (recordAction (position_at idx) Fold None true s) as [s1|e s1|] eqn:Er;
        simpl; [| discriminate | destruct (recordAction_no_OutOfFuel _ _ _ _ _ Er)].
      destruct (getNextActivePlayerIndex_range s1 idx) as [-> | [Hr _]];
        [discriminate|].
      destruct ((getNextActivePlayerIndex s1 idx =? -1)
                || (getNextActivePlayerIndex s1 idx =? idx)); [discriminate|].
      apply IH.
      * apply Hseats. exact Hr.
      * constructor; assumption.
      * intros x Hx. apply elem_of_cons in Hx as [-> | Hx]; auto.
      * simpl. lia.
    + simpl.
      destruct (getNextActivePlayerIndex_range s idx) as [-> | [Hr _]];
        [discriminate|].
      destruct ((getNextActivePlayerIndex s idx =? -1)
                || (getNextActivePlayerIndex s idx =? idx)); [discriminate|].
      apply IH.
      * apply Hseats. exact Hr.
      * constructor; assumption.
      * intros x Hx. apply elem_of_cons in Hx as [-> | Hx]; auto.
      * simpl. lia.
Qed.

Lemma autoFoldBetween_terminates (startIndex endIndex : Z) (s : Engine) :
  autoFoldBetween startIndex endIndex s <> OutOfFuel.
Proof.
  unfold autoFoldBetween.
  apply (autoFoldLoop_fuel [startIndex; 0; 1; 2; 3; 4; 5]).
  - intros j Hj.
    assert (j = 0 \/ j = 1 \/ j = 2 \/ j = 3 \/ j = 4 \/ j = 5) as Hc by lia.
    repeat (destruct Hc as [-> | Hc]; [repeat constructor|]).
    subst. repeat constructor.
  - constructor.
  - constructor.
  - intros x Hx. inversion Hx.
  - simpl. lia.
Qed.

(** Every public operation returns or throws. *)
Lemma run_terminates (c : Command) (s : Engine) : run c s <> OutOfFuel.
Proof.
  destruct c as [pos a sz | pos a sz |]; simpl; [| | discriminate].
  - unfold addPreflopAction.
    destruct (negb (bool_decide (phase (street s) = Preflop)));
      [discriminate|].
    destruct (negb (getPlayerIndex pos =? currentActorIndex s)).
    + pose proof (autoFoldBetween_terminates (currentActorIndex s)
                    (getPlayerIndex pos) s) as Hterm.
      destruct (autoFoldBetween (currentActorIndex s) (getPlayerIndex pos) s)
        as [s1|e s1|]; simpl; [| discriminate | congruence].
      pose proof (recordAction_no_OutOfFuel pos a sz false
                    (set_currentActorIndex s1 (getPlayerIndex pos))) as Hrec.
      destruct (recordAction pos a sz false
                  (set_currentActorIndex s1 (getPlayerIndex pos)));
        simpl; [discriminate | discriminate | congruence].
    + simpl.
      pose proof (recordAction_no_OutOfFuel pos a sz false
                    (set_currentActorIndex s (getPlayerIndex pos))) as Hrec.
      destruct (recordAction pos a sz false
                  (set_currentActorIndex s (getPlayerIndex pos)));
        simpl; [discriminate | discriminate | congruence].
  - unfold addPostflopAction.
    destruct (bool_decide (phase (street s) = Preflop)); [discriminate|].
    destruct (negb (getPlayerIndex pos =? currentActorIndex s));
      [discriminate|].
    pose proof (recordAction_no_OutOfFuel pos a sz false s) as Hrec.
    destruct (recordAction pos a sz false s);
      simpl; [discriminate | discriminate | congruence].
Qed.

(** ** What one recorded action changes *)

(** A rejected [recordAction] has assigned nothing. *)
Lemma recordAction_Threw_unchanged (pos : Position) (a : ActionType)
    (sz : option Q) (skip : bool) (s s' : Engine) (e : EngineError) :
  recordAction pos a sz skip s = Threw e s' -> s' = s.
Proof.
  unfold recordAction.
  repeat (match goal with
          | |- context [if ?c then _ else _] => destruct c
          | |- context [match ?x with _ => _ end] => destruct x
          end; try discriminate);
    intros H; injection H as _ <-; reflexivity.
Qed.

Lemma recordAction_Returned_effect (pos : Position) (a : ActionType)
    (sz : option Q) (skip : bool) (s s' : Engine) :
  wf s ->
  recordAction pos a sz skip s = Returned s' ->
  let i := getPlayerIndex pos in
  let p := player_at (players s) i in
  folded p = false /\
  exists (p' : PlayerState) (x : Q),
    players s' = <[Z.to_nat i := p']> (players s) /\
    (contributed p' == contributed p + x)%Q /\
    pot (street s') = (pot (street s) + x)%Q /\
    phase (street s') = phase (street s) /\
    streetStartingPot (street s') = streetStartingPot (street s) /\
    currentActorIndex s' = currentActorIndex s /\
    waitingForBoard s' = waitingForBoard s.
Proof.
  intros Hwf H i p. pose proof (getPlayerIndex_range pos) as Hr.
  assert (Hi : 0 <= i < Z.of_nat (length (players s))) by (rewrite Hwf; lia).
  unfold recordAction in H. fold i in H. fold p in H.
  destruct (folded p) eqn:Ef; [discriminate|].
  split; [reflexivity|].
  destruct (negb skip && bool_decide (a = Fold) && canCheck s pos
            && negb (bool_decide (phase (street s) = Preflop)));
    [discriminate|].
  destruct a.
  - injection H as <-.
    exists (set_acted (set_folded p true) true), 0%Q.
    unfold commit, update_player; simpl. fold i.
    rewrite player_at_insert_eq by exact Hi.
    rewrite list_insert_insert_eq. fold p.
    repeat split; simpl; try reflexivity. ring.
  - destruct (num_lt (contributed p) (currentBet (street s)));
      [discriminate|].
    injection H as <-.
    exists (set_acted p true), 0%Q.
    unfold commit, update_player; simpl. fold i. fold p.
    repeat split; simpl; try reflexivity. ring.
  - destruct (num_le (currentBet (street s) - contributed p) 0);
      [discriminate|].
    set (x := Math_min (currentBet (street s) - contributed p) (stack p)) in *.
    destruct (num_le x 0); [discriminate|].
    injection H as <-.
    exists (set_acted (pay p x) true), x.
    unfold commit, update_player; simpl. fold i.
    rewrite player_at_insert_eq by exact Hi.
    rewrite list_insert_insert_eq. fold p.
    repeat split; simpl; reflexivity.
  - destruct (num_lt 0 (currentBet (street s))); [discriminate|].
    destruct sz as [size|]; [|discriminate].
    destruct (num_le size 0); [discriminate|].
    set (x := Math_min size (stack p)) in *.
    destruct (num_le x 0); [discriminate|].
    injection H as <-.
    exists (set_acted (pay p x) true), x.
    unfold commit, update_player; simpl. fold i.
    rewrite !player_at_insert_eq by (rewrite ?length_insert; exact Hi).
    rewrite list_insert_insert_eq. fold p.
    repeat split; simpl; reflexivity.
  - destruct sz as [size|]; [|discriminate].
    destruct (num_le size 0); [discriminate|].
    set (x := Math_min (Math_min size (stack p + contributed p)
                        - contributed p) (stack p)) in *.
    destruct (num_le (Math_min size (stack p + contributed p)
                      - contributed p) 0); [discriminate|].
    injection H as <-.
    exists (set_acted (pay p x) true), x.
    unfold commit, update_player; simpl. fold i.
    rewrite !player_at_insert_eq by (rewrite ?length_insert; exact Hi).
    rewrite list_insert_insert_eq. fold p.
    repeat split; simpl; reflexivity.
Qed.

(** ** The player array keeps its size, and folds are permanent *)

Lemma keeps_refl (s : Engine) : keeps s s.
Proof. split; auto. Qed.

Lemma keeps_trans (s1 s2 s3 : Engine) :
  keeps s1 s2 -> keeps s2 s3 -> keeps s1 s3.
Proof.
  intros [H1 H2] [H3 H4]. split; [congruence|auto].
Qed.

Lemma keeps_same_players (s s' : Engine) :
  players s' = players s -> keeps s s'.
Proof. intros H. unfold keeps. rewrite H. auto. Qed.

Lemma keeps_wf (s s' : Engine) : keeps s s' -> wf s -> wf s'.
Proof. intros [H _] Hwf. unfold wf in *. congruence. Qed.

Lemma player_at_reset_street (ps : list PlayerState) (j : Z) :
  player_at (map reset_street ps) j = reset_street (player_at ps j).
Proof.
  unfold player_at. destruct (j <? 0); [reflexivity|].
  rewrite list_lookup_fmap. destruct (ps !! Z.to_nat j); reflexivity.
Qed.

Lemma setPostflopFirstActor_players (s : Engine) :
  players (setPostflopFirstActor s) = players s.
Proof.
  unfold setPostflopFirstActor.
  repeat (match goal with
          | |- context [if ?c then _ else _] => destruct c
          end); reflexivity.
Qed.

Lemma setPostflopFirstActor_street (s : Engine) :
  street (setPostflopFirstActor s) = street s.
Proof.
  unfold setPostflopFirstActor.
  repeat (match goal with
          | |- context [if ?c then _ else _] => destruct c
          end); reflexivity.
Qed.

Lemma prepareNextStreet_players (s : Engine) :
  players (prepareNextStreet s) = map reset_street (players s).
Proof.
  unfold prepareNextStreet.
  destruct (_ >=? _); [reflexivity|].
  rewrite setPostflopFirstActor_players. reflexivity.
Qed.

Lemma confirmBoard_players (s : Engine) :
  players (confirmBoard s) = players s.
Proof.
  unfold confirmBoard.
  repeat (match goal with
          | |- context [if ?c then _ else _] => destruct c
          end); reflexivity.
Qed.

Lemma confirmBoard_street (s : Engine) :
  street (confirmBoard s) = street s.
Proof.
  unfold confirmBoard.
  repeat (match goal with
          | |- context [if ?c then _ else _] => destruct c
          end); reflexivity.
Qed.

Lemma keeps_reset (s s' : Engine) :
  players s' = map reset_street (players s) -> keeps s s'.
Proof.
  intros H. unfold keeps. rewrite H. split.
  - apply length_map.
  - intros j Hj. rewrite player_at_reset_street. exact Hj.
Qed.

Lemma advanceToNextActor_players (s : Engine) :
  players (advanceToNextActor s) = players s \/
  players (advanceToNextActor s) = map reset_street (players s).
Proof.
  unfold advanceToNextActor.
  destruct (getActivePlayerCount s <=? 1); [left; reflexivity|].
  destruct (isStreetComplete s _).
  - destruct (bool_decide (phase (street s) = River)); [left; reflexivity|].
    right. rewrite prepareNextStreet_players. reflexivity.
  - destruct (_ =? -1); left; reflexivity.
Qed.

Lemma keeps_advanceToNextActor (s : Engine) : keeps s (advanceToNextActor s).
Proof.
  destruct (advanceToNextActor_players s) as [H | H].
  - apply keeps_same_players. exact H.
  - apply keeps_reset. exact H.
Qed.

Lemma keeps_recordAction (pos : Position) (a : ActionType) (sz : option Q)
    (skip : bool) (s s' : Engine) :
  wf s -> recordAction pos a sz skip s = Returned s' -> keeps s s'.
Proof.
  intros Hwf H. pose proof (getPlayerIndex_range pos) as Hr.
  destruct (recordAction_Returned_effect _ _ _ _ _ _ Hwf H)
    as (Hnf & p' & x & Hp & _).
  unfold keeps. rewrite Hp. split; [apply length_insert|].
  intros j Hj. destruct (decide (getPlayerIndex pos = j)) as [<- | Hne].
  - congruence.
  - rewrite player_at_insert_ne by lia. exact Hj.
Qed.

Lemma keeps_autoFoldLoop (endIndex : Z) :
  forall fuel idx processed s,
    wf s ->
    keeps s (state_after s (autoFoldLoop fuel idx endIndex processed s)).
Proof.
  induction fuel as [|fuel IH]; intros idx processed s Hwf; simpl.
  - destruct (idx =? endIndex); apply keeps_refl.
  - destruct (idx =? endIndex); [apply keeps_refl|].
    destruct (bool_decide (idx ∈ processed)); [apply keeps_refl|].
    destruct ((idx <? 0) || (idx >=? Z.of_nat (length (players s))));
      [apply keeps_refl|].
    destruct (negb (folded (player_at (players s) idx))).
    + destruct (recordAction (position_at idx) Fold None true s)
        as [s1|e s1|] eqn:Er; simpl.
      * pose proof (keeps_recordAction _ _ _ _ _ _ Hwf Er) as Hk.
        destruct ((getNextActivePlayerIndex s1 idx =? -1)
                  || (getNextActivePlayerIndex s1 idx =? idx)); [exact Hk|].
        specialize (IH (getNextActivePlayerIndex s1 idx) (idx :: processed) s1
                       (keeps_wf _ _ Hk Hwf)).
        destruct (autoFoldLoop fuel _ endIndex (idx :: processed) s1);
          simpl in *.
        -- exact (keeps_trans _ _ _ Hk IH).
        -- exact (keeps_trans _ _ _ Hk IH).
        -- apply keeps_refl.
      * apply recordAction_Threw_unchanged in Er. subst. apply keeps_refl.
      * apply keeps_refl.
    + simpl.
      destruct ((getNextActivePlayerIndex s idx =? -1)
                || (getNextActivePlayerIndex s idx =? idx)); [apply keeps_refl|].
      apply IH. exact Hwf.
Qed.

Lemma keeps_addPreflopAction (pos : Position) (a : ActionType)
    (sz : option Q) (s : Engine) :
  wf s -> keeps s (state_after s (addPreflopAction pos a sz s)).
Proof.
  intros Hwf. unfold addPreflopAction.
  destruct (negb (bool_decide (phase (street s) = Preflop)));
    [apply keeps_refl|].
  assert (Hk1 : keeps s (state_after s
            (if negb (getPlayerIndex pos =? currentActorIndex s)
             then autoFoldBetween (currentActorIndex s) (getPlayerIndex pos) s
             else Returned s))).
  { destruct (negb _); [apply keeps_autoFoldLoop; exact Hwf | apply keeps_refl]. }
  destruct (if negb (getPlayerIndex pos =? currentActorIndex s)
            then autoFoldBetween (currentActorIndex s) (getPlayerIndex pos) s
            else Returned s) as [s1|e s1|]; simpl in *;
    [| exact Hk1 | apply keeps_refl].
  destruct (recordAction pos a sz false
              (set_currentActorIndex s1 (getPlayerIndex pos)))
    as [s3|e s3|] eqn:Er; simpl.
  - apply (keeps_trans _ s1); [exact Hk1|].
    apply (keeps_trans _ s3); [|apply keeps_advanceToNextActor].
    apply (keeps_trans _ (set_currentActorIndex s1 (getPlayerIndex pos)));
      [apply keeps_same_players; reflexivity|].
    refine (keeps_recordAction _ _ _ _ _ _ _ Er).
    exact (keeps_wf _ _ Hk1 Hwf).
  - apply recordAction_Threw_unchanged in Er. subst.
    exact Hk1.
  - apply keeps_refl.
Qed.

Lemma keeps_addPostflopAction (pos : Position) (a : ActionType)
    (sz : option Q) (s : Engine) :
  wf s -> keeps s (state_after s (addPostflopAction pos a sz s)).
Proof.
  intros Hwf. unfold addPostflopAction.
  destruct (bool_decide (phase (street s) = Preflop)); [apply keeps_refl|].
  destruct (negb (getPlayerIndex pos =? currentActorIndex s));
    [apply keeps_refl|].
  destruct (recordAction pos a sz false s) as [s1|e s1|] eqn:Er; simpl.
  - apply (keeps_trans _ s1); [|apply keeps_advanceToNextActor].
    apply (keeps_recordAction _ _ _ _ _ _ Hwf Er).
  - apply recordAction_Threw_unchanged in Er. subst. apply keeps_refl.
  - apply keeps_refl.
Qed.

Lemma keeps_run (c : Command) (s : Engine) :
  wf s -> keeps s (state_after s (run c s)).
Proof.
  intros Hwf. destruct c; simpl.
  - apply keeps_addPreflopAction. exact Hwf.
  - apply keeps_addPostflopAction. exact Hwf.
  - apply keeps_same_players. apply confirmBoard_players.
Qed.

Lemma keeps_run_all (cs : list Command) :
  forall s, wf s -> keeps s (run_all cs s).
Proof.
  induction cs as [|c cs IH]; intros s Hwf; simpl.
  - apply keeps_refl.
  - pose proof (keeps_run c s Hwf) as Hk.
    apply (keeps_trans _ _ _ Hk). apply IH. exact (keeps_wf _ _ Hk Hwf).
Qed.

Lemma new_engine_wf (hero : option Position) (stackSz : Q) :
  wf (new_engine hero stackSz).
Proof. reflexivity. Qed.

(** ** C8: a folded seat stays folded and cannot act *)

Lemma recordAction_folded_throws (pos : Position) (a : ActionType)
    (sz : option Q) (skip : bool) (s : Engine) :
  folded (player_at (players s) (getPlayerIndex pos)) = true ->
  recordAction pos a sz skip s = Threw ErrAlreadyFolded s.
Proof. intros H. unfold recordAction. rewrite H. reflexivity. Qed.

(** C8. Take a seat whose [folded] flag is set.  After any sequence of
    later calls (preflop actions, postflop actions and board
    confirmations, for any seats, accepted or rejected), the flag is still
    set, and a call of [addPreflopAction] or of [addPostflopAction] for that
    seat, with any action type and size, throws. *)
Theorem folded_seat_never_acts_again (s : Engine) (pos : Position)
    (cs : list Command) (a : ActionType) (sz : option Q) :
  wf s ->
  folded (player_at (players s) (getPlayerIndex pos)) = true ->
  let s' := run_all cs s in
  folded (player_at (players s') (getPlayerIndex pos)) = true /\
  threw (addPreflopAction pos a sz s') = true /\
  threw (addPostflopAction pos a sz s') = true.
Proof.
  intros Hwf Hf s'.
  pose proof (keeps_run_all cs s Hwf) as Hk. fold s' in Hk.
  assert (Hf' : folded (player_at (players s') (getPlayerIndex pos)) = true)
    by (apply Hk; exact Hf).
  assert (Hwf' : wf s') by exact (keeps_wf _ _ Hk Hwf).
  split; [exact Hf'|]. split.
  - unfold addPreflopAction.
    destruct (negb (bool_decide (phase (street s') = Preflop)));
      [reflexivity|].
    destruct (negb (getPlayerIndex pos =? currentActorIndex s')) eqn:Eskip.
    + pose proof (keeps_autoFoldLoop (getPlayerIndex pos) 8
                    (currentActorIndex s') [] s' Hwf') as Hk1.
      pose proof (autoFoldBetween_terminates (currentActorIndex s')
                    (getPlayerIndex pos) s') as Hterm.
      unfold autoFoldBetween in *.
      destruct (autoFoldLoop 8 (currentActorIndex s') (getPlayerIndex pos) [] s')
        as [s1|e s1|]; simpl in *; [| reflexivity | congruence].
      rewrite recordAction_folded_throws; [reflexivity|].
      simpl. apply Hk1. exact Hf'.
    + simpl. rewrite recordAction_folded_throws; [reflexivity|].
      simpl. exact Hf'.
  - unfold addPostflopAction.
    destruct (bool_decide (phase (street s') = Preflop)); [reflexivity|].
    destruct (negb (getPlayerIndex pos =? currentActorIndex s'));
      [reflexivity|].
    rewrite recordAction_folded_throws by exact Hf'. reflexivity.
Qed.

Lemma folded_seat_never_acts_again_witness :
  let s := state_after (new_engine None 100)
             (addPreflopAction UTG Fold None (new_engine None 100)) in
  let s' := run_all [PreflopAction HJ Raise (Some 3%Q); ConfirmBoard] s in
  wf s /\
  folded (player_at (players s) (getPlayerIndex UTG)) = true /\
  folded (player_at (players s') (getPlayerIndex UTG)) = true /\
  threw (addPreflopAction UTG Call None s') = true /\
  threw (addPostflopAction UTG Call None s') = true.
Proof.
  cbv zeta.
  split; [reflexivity|]. split; [reflexivity|].
  apply (folded_seat_never_acts_again
           (state_after (new_engine None 100)
              (addPreflopAction UTG Fold None (new_engine None 100)))
           UTG [PreflopAction HJ Raise (Some 3%Q); ConfirmBoard] Call None).
  - reflexivity.
  - reflexivity.
Defined.

(** ** C2: what a rejected call leaves behind *)

Lemma getPlayerIndex_position_at (i : Z) :
  0 <= i < 6 -> getPlayerIndex (position_at i) = i.
Proof.
  intros Hi.
  assert (i = 0 \/ i = 1 \/ i = 2 \/ i = 3 \/ i = 4 \/ i = 5) as Hc by lia.
  repeat (destruct Hc as [-> | Hc]; [reflexivity|]). subst. reflexivity.
Qed.

Lemma recordAction_autoFold (i : Z) (s : Engine) :
  0 <= i < 6 ->
  folded (player_at (players s) i) = false ->
  recordAction (position_at i) Fold None true s = Returned (autoFolded i s).
Proof.
  intros Hi Hf. unfold recordAction.
  rewrite (getPlayerIndex_position_at i Hi). rewrite Hf. reflexivity.
Qed.

Lemma autoFoldLoop_never_throws (endIndex : Z) :
  forall fuel idx processed s e s',
    wf s -> autoFoldLoop fuel idx endIndex processed s <> Threw e s'.
Proof.
  induction fuel as [|fuel IH]; intros idx processed s e s' Hwf; simpl.
  - destruct (idx =? endIndex); discriminate.
  - destruct (idx =? endIndex); [discriminate|].
    destruct (bool_decide (idx ∈ processed)); [discriminate|].
    destruct ((idx <? 0) || (idx >=? Z.of_nat (length (players s)))) eqn:Er;
      [discriminate|].
    apply orb_false_iff in Er as [Hlo Hhi]. rewrite Hwf in Hhi.
    apply Z.ltb_ge in Hlo. rewrite Z.geb_leb in Hhi. apply Z.leb_gt in Hhi.
    assert (Hi : 0 <= idx < 6) by lia.
    destruct (folded (player_at (players s) idx)) eqn:Ef; simpl.
    + destruct ((getNextActivePlayerIndex s idx =? -1)
                || (getNextActivePlayerIndex s idx =? idx)); [discriminate|].
      apply IH. exact Hwf.
    + rewrite (recordAction_autoFold idx s Hi Ef). simpl.
      destruct ((getNextActivePlayerIndex (autoFolded idx s) idx =? -1)
                || (getNextActivePlayerIndex (autoFolded idx s) idx =? idx));
        [discriminate|].
      apply IH.
      refine (keeps_wf _ _ (keeps_recordAction _ _ _ _ _ _ Hwf
                              (recordAction_autoFold idx s Hi Ef)) Hwf).
Qed.

Lemma set_currentActorIndex_same (s : Engine) :
  set_currentActorIndex s (currentActorIndex s) = s.
Proof. destruct s. reflexivity. Qed.

(** C2, as the code has it.  A rejected [addPostflopAction] leaves the
    state as it was.  A rejected [addPreflopAction] leaves the state as it
    was when the phase is not Preflop or the named seat is the current
    actor; when it names another seat, the skip has already run: the state
    left behind is the state after [autoFoldBetween], with the current
    actor moved to the named seat. *)
Theorem rejected_call_state (s : Engine) (pos : Position) (a : ActionType)
    (sz : option Q) (e : EngineError) (s' : Engine) :
  wf s ->
  (addPostflopAction pos a sz s = Threw e s' -> s' = s) /\
  (addPreflopAction pos a sz s = Threw e s' ->
     if bool_decide (phase (street s) = Preflop)
        && negb (getPlayerIndex pos =? currentActorIndex s)
     then exists s1,
            autoFoldBetween (currentActorIndex s) (getPlayerIndex pos) s
              = Returned s1 /\
            s' = set_currentActorIndex s1 (getPlayerIndex pos)
     else s' = s).
Proof.
  intros Hwf. split.
  - unfold addPostflopAction.
    destruct (bool_decide (phase (street s) = Preflop));
      [intros H; injection H as _ <-; reflexivity|].
    destruct (negb (getPlayerIndex pos =? currentActorIndex s));
      [intros H; injection H as _ <-; reflexivity|].
    destruct (recordAction pos a sz false s) as [s1|e1 s1|] eqn:Er; simpl;
      [discriminate | | discriminate].
    intros H; injection H as _ <-.
    exact (recordAction_Threw_unchanged _ _ _ _ _ _ _ Er).
  - unfold addPreflopAction.
    destruct (bool_decide (phase (street s) = Preflop)); simpl;
      [|intros H; injection H as _ <-; reflexivity].
    destruct (negb (getPlayerIndex pos =? currentActorIndex s)) eqn:Eskip.
    + destruct (autoFoldBetween (currentActorIndex s) (getPlayerIndex pos) s)
        as [s1|e1 s1|] eqn:Eauto; simpl.
      * destruct (recordAction pos a sz false
                    (set_currentActorIndex s1 (getPlayerIndex pos)))
          as [s3|e3 s3|] eqn:Er; simpl; [discriminate | | discriminate].
        intros H; injection H as _ <-.
        exists s1. split; [reflexivity|].
        exact (recordAction_Threw_unchanged _ _ _ _ _ _ _ Er).
      * exfalso. exact (autoFoldLoop_never_throws _ _ _ _ _ _ _ Hwf Eauto).
      * discriminate.
    + simpl. apply negb_false_iff, Z.eqb_eq in Eskip. rewrite Eskip.
      rewrite set_currentActorIndex_same.
      destruct (recordAction pos a sz false s) as [s3|e3 s3|] eqn:Er; simpl;
        [discriminate | | discriminate].
      intros H; injection H as _ <-.
      exact (recordAction_Threw_unchanged _ _ _ _ _ _ _ Er).
Qed.

Lemma rejected_call_state_witness :
  let s := new_engine None 100 in
  let left_behind := state_after s (addPreflopAction BTN Check None s) in
  wf s /\
  addPostflopAction UTG Check None s = Threw ErrUsePreflop s /\
  addPreflopAction UTG Check None s = Threw ErrCheckFacingBet s /\
  addPreflopAction BTN Check None s = Threw ErrCheckFacingBet left_behind /\
  exists s1,
    autoFoldBetween (currentActorIndex s) (getPlayerIndex BTN) s
      = Returned s1 /\
    left_behind = set_currentActorIndex s1 (getPlayerIndex BTN).
Proof.
  cbv zeta.
  split; [reflexivity|].
  split; [vm_compute; reflexivity|].
  split; [vm_compute; reflexivity|].
  split; [vm_compute; reflexivity|].
  destruct (rejected_call_state (new_engine None 100) BTN Check None
              ErrCheckFacingBet
              (state_after (new_engine None 100)
                 (addPreflopAction BTN Check None (new_engine None 100))))
    as [_ H]; [reflexivity|].
  assert (Hskip : bool_decide (phase (street (new_engine None 100)) = Preflop)
                  && negb (getPlayerIndex BTN
                           =? currentActorIndex (new_engine None 100)) = true)
    by (vm_compute; reflexivity).
  rewrite Hskip in H. apply H. vm_compute. reflexivity.
Defined.

(** The claim as the spec states it fails on a fresh hand: the rejected
    call [addPreflopAction(BTN, Check)] has folded UTG, HJ and CO and moved
    the current actor to BTN. *)
Lemma rejected_skip_changes_state :
  let s := new_engine None 100 in
  let o := addPreflopAction BTN Check None s in
  threw o = true /\
  state_after s o <> s /\
  map folded (players s) = [false; false; false; false; false; false] /\
  map folded (players (state_after s o))
    = [false; false; true; true; true; false] /\
  map summary (actions (state_after s o))
    = [(UTG, Fold, None); (HJ, Fold, None); (CO, Fold, None)] /\
  currentActorIndex s = 2 /\
  currentActorIndex (state_after s o) = 5.
Proof.
  cbv zeta. split; [vm_compute; reflexivity|]. split.
  - intros H. apply (f_equal currentActorIndex) in H. vm_compute in H.
    discriminate.
  - repeat split; vm_compute; reflexivity.
Qed.

(** ** Invariants of the reachable states *)

Section Invariant.
Variable P : Engine -> Prop.
Hypothesis P_record :
  forall pos a sz skip s s',
    wf s -> P s -> recordAction pos a sz skip s = Returned s' -> P s'.
Hypothesis P_actor : forall s i, P s -> P (set_currentActorIndex s i).
Hypothesis P_waiting : forall s b, P s -> P (set_waitingForBoard s b).
Hypothesis P_prepare :
  forall s, P s -> phase (street s) <> River -> P (prepareNextStreet s).

Lemma inv_advanceToNextActor (s : Engine) : P s -> P (advanceToNextActor s).
Proof.
  intros HP. unfold advanceToNextActor.
  destruct (getActivePlayerCount s <=? 1); [apply P_actor; exact HP|].
  destruct (isStreetComplete s _).
  - destruct (bool_decide (phase (street s) = River)) eqn:Eph;
      [apply P_actor; exact HP|].
    apply bool_decide_eq_false in Eph.
    apply P_prepare; [apply P_waiting; exact HP | exact Eph].
  - destruct (_ =? -1); apply P_actor; exact HP.
Qed.

Lemma inv_confirmBoard (s : Engine) : P s -> P (confirmBoard s).
Proof.
  intros HP. unfold confirmBoard.
  repeat (match goal with
          | |- context [if ?c then _ else _] => destruct c
          end); auto.
Qed.

Lemma inv_autoFoldLoop (endIndex : Z) :
  forall fuel idx processed s,
    wf s -> P s ->
    P (state_after s (autoFoldLoop fuel idx endIndex processed s)).
Proof.
  induction fuel as [|fuel IH]; intros idx processed s Hwf HP; simpl.
  - destruct (idx =? endIndex); exact HP.
  - destruct (idx =? endIndex); [exact HP|].
    destruct (bool_decide (idx ∈ processed)); [exact HP|].
    destruct ((idx <? 0) || (idx >=? Z.of_nat (length (players s))));
      [exact HP|].
    destruct (negb (folded (player_at (players s) idx))).
    + destruct (recordAction (position_at idx) Fold None true s)
        as [s1|e s1|] eqn:Er; simpl.
      * pose proof (P_record _ _ _ _ _ _ Hwf HP Er) as HP1.
        pose proof (keeps_wf _ _ (keeps_recordAction _ _ _ _ _ _ Hwf Er) Hwf)
          as Hwf1.
        destruct ((getNextActivePlayerIndex s1 idx =? -1)
                  || (getNextActivePlayerIndex s1 idx =? idx)); [exact HP1|].
        specialize (IH (getNextActivePlayerIndex s1 idx) (idx :: processed)
                       s1 Hwf1 HP1).
        destruct (autoFoldLoop fuel _ endIndex (idx :: processed) s1);
          simpl in *; [exact IH | exact IH | exact HP].
      * apply recordAction_Threw_unchanged in Er. subst. exact HP.
      * exact HP.
    + simpl.
      destruct ((getNextActivePlayerIndex s idx =? -1)
                || (getNextActivePlayerIndex s idx =? idx)); [exact HP|].
      apply IH; assumption.
Qed.

Lemma inv_run (c : Command) (s : Engine) :
  wf s -> P s -> P (state_after s (run c s)).
Proof.
  intros Hwf HP. destruct c as [pos a sz | pos a sz |]; simpl.
  - unfold addPreflopAction.
    destruct (negb (bool_decide (phase (street s) = Preflop))); [exact HP|].
    assert (H1 : P (state_after s
              (if negb (getPlayerIndex pos =? currentActorIndex s)
               then autoFoldBetween (currentActorIndex s)
                      (getPlayerIndex pos) s
               else Returned s)) /\
            wf (state_after s
              (if negb (getPlayerIndex pos =? currentActorIndex s)
               then autoFoldBetween (currentActorIndex s)
                      (getPlayerIndex pos) s
               else Returned s))).
    { destruct (negb _); [|split; assumption]. split.
      - apply inv_autoFoldLoop; assumption.
      - exact (keeps_wf _ _ (keeps_autoFoldLoop _ _ _ _ _ Hwf) Hwf). }
    destruct (if negb (getPlayerIndex pos =? currentActorIndex s)
              then autoFoldBetween (currentActorIndex s) (getPlayerIndex pos) s
              else Returned s) as [s1|e s1|]; simpl in *;
      [| exact (proj1 H1) | exact HP].
    destruct H1 as [HP1 Hwf1].
    destruct (recordAction pos a sz false
                (set_currentActorIndex s1 (getPlayerIndex pos)))
      as [s3|e s3|] eqn:Er; simpl.
    + apply inv_advanceToNextActor.
      refine (P_record _ _ _ _ _ _ _ _ Er); [exact Hwf1|].
      apply P_actor. exact HP1.
    + apply recordAction_Threw_unchanged in Er. subst.
      apply P_actor. exact HP1.
    + exact HP.
  - unfold addPostflopAction.
    destruct (bool_decide (phase (street s) = Preflop)); [exact HP|].
    destruct (negb (getPlayerIndex pos =? currentActorIndex s)); [exact HP|].
    destruct (recordAction pos a sz false s) as [s1|e s1|] eqn:Er; simpl.
    + apply inv_advanceToNextActor. exact (P_record _ _ _ _ _ _ Hwf HP Er).
    + apply recordAction_Threw_unchanged in Er. subst. exact HP.
    + exact HP.
  - apply inv_confirmBoard. exact HP.
Qed.

Lemma inv_reachable :
  (forall hero stackSz, P (new_engine hero stackSz)) ->
  forall s, reachable s -> wf s /\ P s.
Proof.
  intros Hnew s Hr. induction Hr as [hero stackSz | s c Hr [Hwf HP]].
  - split; [apply new_engine_wf | apply Hnew].
  - split.
    + exact (keeps_wf _ _ (keeps_run c s Hwf) Hwf).
    + apply inv_run; assumption.
Qed.
End Invariant.

(** ** C3: the pot and the contributions of the street *)









(** ** C1: the board gate when nobody can act *)

(** On Flop and Turn, [confirmBoard] with no player able to act assigns
    nothing: the phase does not advance and the gate stays closed. *)
Lemma confirmBoard_nobody_can_act (s : Engine) :
  waitingForBoard s = true ->
  phase (street s) <> River ->
  List.filter can_act (players s) = [] ->
  confirmBoard s = s.
Proof.
  intros Hw Hph Hnone. unfold confirmBoard.
  rewrite Hw, Hnone. simpl.
  rewrite bool_decide_eq_false_2 by exact Hph. reflexivity.
Qed.

(** On River the same call ends the hand. *)
Lemma confirmBoard_river_nobody_can_act (s : Engine) :
  waitingForBoard s = true ->
  phase (street s) = River ->
  List.filter can_act (players s) = [] ->
  (1 <? getActivePlayerCount s) = true ->
  isHandComplete (confirmBoard s) = true.
Proof.
  intros Hw Hph Hnone Hact. unfold confirmBoard.
  rewrite Hw, Hnone. simpl.
  rewrite bool_decide_eq_true_2 by exact Hph.
  unfold isHandComplete. simpl.
  destruct (getActivePlayerCount _ <=? 1); reflexivity.
Qed.

(** C1, evaluated on the code.  Fresh hand, stack 100:
    [addPreflopAction(BTN, Raise, 100)], [addPreflopAction(SB, Fold)],
    [addPreflopAction(BB, Call)] are all accepted and leave BTN and BB all-in
    with the gate closed on Flop.  Each of three [confirmBoard()] calls then
    returns the state unchanged: the phase is still Flop, the engine still
    waits for the board, and [isHandComplete()] is false. *)
Theorem preflop_all_in_runout_stays_on_flop :
  let s0 := new_engine None 100 in
  let s1 := state_after s0 (addPreflopAction BTN Raise (Some 100%Q) s0) in
  let s2 := state_after s1 (addPreflopAction SB Fold None s1) in
  let s3 := state_after s2 (addPreflopAction BB Call None s2) in
  addPreflopAction BTN Raise (Some 100%Q) s0 = Returned s1 /\
  addPreflopAction SB Fold None s1 = Returned s2 /\
  addPreflopAction BB Call None s2 = Returned s3 /\
  List.filter can_act (players s3) = [] /\
  getActivePlayerCount s3 = 2 /\
  phase (street s3) = Flop /\
  waitingForBoard s3 = true /\
  confirmBoard s3 = s3 /\
  confirmBoard (confirmBoard (confirmBoard s3)) = s3 /\
  phase (street (confirmBoard (confirmBoard (confirmBoard s3)))) = Flop /\
  waitingForBoard (confirmBoard (confirmBoard (confirmBoard s3))) = true /\
  isHandComplete (confirmBoard (confirmBoard (confirmBoard s3))) = false.
Proof.
  intros s0 s1 s2 s3.
  assert (Hfix : confirmBoard s3 = s3).
  { apply confirmBoard_nobody_can_act.
    - vm_compute; reflexivity.
    - vm_compute; discriminate.
    - vm_compute; reflexivity. }
  split; [vm_compute; reflexivity|].
  split; [vm_compute; reflexivity|].
  split; [vm_compute; reflexivity|].
  split; [vm_compute; reflexivity|].
  split; [vm_compute; reflexivity|].
  split; [vm_compute; reflexivity|].
  split; [vm_compute; reflexivity|].
  split; [exact Hfix|].
  rewrite !Hfix.
  split; [reflexivity|].
  split; [vm_compute; reflexivity|].
  split; vm_compute; reflexivity.
Qed.

(** ** C4: folding when a check is possible *)

(** Postflop, a caller's Fold from a seat that can check is rejected. *)
Lemma postflop_fold_rejected_when_check_possible (s : Engine)
    (pos : Position) (sz : option Q) :
  phase (street s) <> Preflop ->
  canCheck s pos = true ->
  recordAction pos Fold sz false s = Threw ErrFoldWhenCheck s.
Proof.
  intros Hph Hc. unfold recordAction.
  unfold canCheck in Hc.
  destruct (folded (player_at (players s) (getPlayerIndex pos))) eqn:Ef;
    [discriminate|].
  unfold canCheck. rewrite Ef, Hc.
  rewrite (bool_decide_eq_false_2 (phase (street s) = Preflop)) by exact Hph.
  reflexivity.
Qed.

(** Preflop, the same Fold passes the check and is recorded. *)
Lemma preflop_fold_never_rejected_for_check (s : Engine) (pos : Position)
    (sz : option Q) (skip : bool) :
  phase (street s) = Preflop ->
  folded (player_at (players s) (getPlayerIndex pos)) = false ->
  exists s', recordAction pos Fold sz skip s = Returned s'.
Proof.
  intros Hph Hf. unfold recordAction. rewrite Hf.
  rewrite (bool_decide_eq_true_2 (phase (street s) = Preflop) Hph). simpl.
  rewrite andb_false_r. eexists. reflexivity.
Qed.

(** C4, evaluated on the code.  Hero BB, the five other seats call: BB can
    check and [getAvailableActions(BB)] offers no Fold, yet the caller's
    [addPreflopAction(BB, Fold)] is accepted and BB is folded. *)
Theorem preflop_caller_fold_accepted_when_check_possible :
  let s := run_all [PreflopAction UTG Call None; PreflopAction HJ Call None;
                    PreflopAction CO Call None; PreflopAction BTN Call None;
                    PreflopAction SB Call None] (new_engine (Some BB) 100) in
  phase (street s) = Preflop /\
  getCurrentActor s = Some BB /\
  canCheck s BB = true /\
  getAvailableActions s BB = [Check; Raise] /\
  folded (player_at (players s) (getPlayerIndex BB)) = false /\
  exists s',
    addPreflopAction BB Fold None s = Returned s' /\
    folded (player_at (players s') (getPlayerIndex BB)) = true /\
    map performed (actions s')
      = [(UTG, Call); (HJ, Call); (CO, Call); (BTN, Call); (SB, Call);
         (BB, Fold)].
Proof.
  intros s.
  split; [vm_compute; reflexivity|].
  split; [vm_compute; reflexivity|].
  split; [vm_compute; reflexivity|].
  split; [vm_compute; reflexivity|].
  split; [vm_compute; reflexivity|].
  exists (state_after s (addPreflopAction BB Fold None s)).
  split; [vm_compute; reflexivity|].
  split; vm_compute; reflexivity.
Qed.

(** ** C5: the big blind's option *)







(** ** C6: the preflop skip *)

Lemma seat_after_range (c k : Z) : 0 <= seat_after c k < 6.
Proof. unfold seat_after. apply Z.mod_pos_bound. lia. Qed.

Lemma seat_after_inj (c k k' : Z) :
  0 <= k < 6 -> 0 <= k' < 6 -> seat_after c k = seat_after c k' -> k = k'.
Proof.
  unfold seat_after. intros Hk Hk' H.
  Z.div_mod_to_equations. lia.
Qed.

Lemma seat_after_distance (c t : Z) :
  0 <= t < 6 -> seat_after c (clockwise_distance c t) = t.
Proof.
  unfold seat_after, clockwise_distance. intros Ht.
  Z.div_mod_to_equations. lia.
Qed.

Lemma seat_after_0 (c : Z) : 0 <= c < 6 -> seat_after c 0 = c.
Proof.
  unfold seat_after. intros Hc. Z.div_mod_to_equations. lia.
Qed.

Lemma clockwise_distance_range (c t : Z) :
  0 <= c < 6 -> 0 <= t < 6 -> c <> t -> 1 <= clockwise_distance c t <= 5.
Proof.
  unfold clockwise_distance. intros Hc Ht Hne.
  Z.div_mod_to_equations. lia.
Qed.

Lemma rem_seat_after (c k i : Z) :
  0 <= i -> Z.rem (seat_after c k + i) 6 = seat_after c (k + i).
Proof.
  intros Hi. pose proof (seat_after_range c k) as Hr.
  rewrite Z.rem_mod_nonneg by lia.
  unfold seat_after in *. Z.div_mod_to_equations. lia.
Qed.

Lemma first_true_offset (f : Z -> bool) (n : nat) :
  (exists k0, 1 <= k0 <= Z.of_nat n /\ f k0 = true /\
              forall j, 1 <= j < k0 -> f j = false) \/
  (forall j, 1 <= j <= Z.of_nat n -> f j = false).
Proof.
  induction n as [|n [(k0 & Hk0 & Hf & Hmin) | Hnone]].
  - right. intros j Hj. lia.
  - left. exists k0. split; [lia|]. split; assumption.
  - destruct (f (Z.of_nat (S n))) eqn:E.
    + left. exists (Z.of_nat (S n)). split; [lia|]. split; [exact E|].
      intros j Hj. apply Hnone. lia.
    + right. intros j Hj.
      destruct (decide (j = Z.of_nat (S n))) as [-> | Hne]; [exact E|].
      apply Hnone. lia.
Qed.

Lemma nextActiveLoop_first (ps : list PlayerState) (c k : Z) :
  forall (n : nat) (i k0 : Z),
    0 <= i ->
    i <= k0 < i + Z.of_nat n ->
    (forall j, i <= j < k0 ->
       can_act (player_at ps (seat_after c (k + j))) = false) ->
    can_act (player_at ps (seat_after c (k + k0))) = true ->
    nextActiveLoop ps (seat_after c k) i n = seat_after c (k + k0).
Proof.
  induction n as [|n IH]; intros i k0 Hi Hk0 Hbefore Hat; [lia|].
  simpl. rewrite rem_seat_after by exact Hi.
  destruct (decide (i = k0)) as [-> | Hne].
  - rewrite Hat. reflexivity.
  - rewrite Hbefore by lia. apply IH; try lia.
    + intros j Hj. apply Hbefore. lia.
    + exact Hat.
Qed.

Lemma filter_none {A} (f : A -> bool) (l : list A) :
  (forall x, In x l -> f x = false) -> List.filter f l = [].
Proof.
  induction l as [|x l IH]; intros H; simpl; [reflexivity|].
  rewrite (H x (or_introl eq_refl)). apply IH.
  intros y Hy. apply H. right. exact Hy.
Qed.

Lemma autoFolded_players (i : Z) (s : Engine) :
  wf s -> 0 <= i < 6 ->
  players (autoFolded i s)
  = <[Z.to_nat i :=
        set_acted (set_folded (player_at (players s) i) true) true]> (players s).
Proof.
  intros Hwf Hi. unfold autoFolded, commit, update_player. simpl.
  rewrite (getPlayerIndex_position_at i Hi).
  rewrite player_at_insert_eq by (rewrite Hwf; lia).
  apply list_insert_insert_eq.
Qed.

Lemma autoFolded_wf (i : Z) (s : Engine) :
  wf s -> 0 <= i < 6 -> wf (autoFolded i s).
Proof.
  intros Hwf Hi. unfold wf. rewrite autoFolded_players by assumption.
  rewrite length_insert. exact Hwf.
Qed.

Lemma autoFolded_player_at_ne (i j : Z) (s : Engine) :
  wf s -> 0 <= i < 6 -> i <> j ->
  player_at (players (autoFolded i s)) j = player_at (players s) j.
Proof.
  intros Hwf Hi Hne. rewrite autoFolded_players by assumption.
  apply player_at_insert_ne; lia.
Qed.

Lemma autoFolded_player_at_eq (i : Z) (s : Engine) :
  wf s -> 0 <= i < 6 ->
  player_at (players (autoFolded i s)) i
  = set_acted (set_folded (player_at (players s) i) true) true.
Proof.
  intros Hwf Hi. rewrite autoFolded_players by assumption.
  apply player_at_insert_eq. rewrite Hwf. lia.
Qed.

Section Skip.
Variables c t : Z.
Hypothesis Hc : 0 <= c < 6.
Hypothesis Ht : 0 <= t < 6.
Hypothesis Hne : c <> t.

Let D := clockwise_distance c t.

Lemma D_range : 1 <= D <= 5.
Proof. apply clockwise_distance_range; assumption. Qed.

Lemma seat_before_t (k : Z) : 0 <= k < D -> seat_after c k <> t.
Proof.
  intros Hk Heq. pose proof D_range as HD.
  rewrite <- (seat_after_distance c t Ht) in Heq. fold D in Heq.
  apply seat_after_inj in Heq; lia.
Qed.

(** The rest of one iteration, from [getNextActivePlayerIndex] on. *)
Lemma skip_loop_continue (fuel : nat) (k : Z) (processed : list Z)
    (s s1 : Engine) :
  (forall k' processed' s',
     wf s' -> 0 <= k' < D -> D - k' <= Z.of_nat fuel ->
     can_act (player_at (players s') t) = true ->
     (forall x, x ∈ processed' ->
        exists j, 0 <= j < k' /\ x = seat_after c j) ->
     autoFoldLoop fuel (seat_after c k') t processed' s'
     = Returned
         (foldl (fun st j => autoFolded j st) s'
            ((if folded (player_at (players s') (seat_after c k'))
              then [] else [seat_after c k'])
             ++ to_fold_after c t s' k'))) ->
  wf s1 -> 0 <= k < D -> D - k <= Z.of_nat (S fuel) ->
  can_act (player_at (players s) t) = true ->
  (forall x, x ∈ processed -> exists j, 0 <= j < k /\ x = seat_after c j) ->
  (forall j, j <> seat_after c k ->
     player_at (players s1) j = player_at (players s) j) ->
  (let nextIdx := getNextActivePlayerIndex s1 (seat_after c k) in
   if (nextIdx =? -1) || (nextIdx =? seat_after c k) then Returned s1
   else autoFoldLoop fuel nextIdx t (seat_after c k :: processed) s1)
  = Returned (foldl (fun st j => autoFolded j st) s1 (to_fold_after c t s k)).
Proof.
  intros IH Hwf1 Hk Hfuel Hcan Hproc Hsame.
  pose proof D_range as HD.
  assert (Hcan1 : can_act (player_at (players s1) t) = true).
  { rewrite Hsame; [exact Hcan|]. intros Heq. symmetry in Heq.
    exact (seat_before_t k Hk Heq). }
  destruct (first_true_offset
              (fun j => can_act (player_at (players s1) (seat_after c (k + j))))
              (Z.to_nat (D - k))) as [(k0 & Hk0 & Hat & Hbefore) | Hnone].
  2:{ specialize (Hnone (D - k) ltac:(lia)). simpl in Hnone.
      replace (k + (D - k)) with D in Hnone by lia.
      unfold D in Hnone. rewrite (seat_after_distance c t Ht) in Hnone.
      congruence. }
  simpl in Hat.
  assert (Hnext : getNextActivePlayerIndex s1 (seat_after c k)
                  = seat_after c (k + k0)).
  { unfold getNextActivePlayerIndex.
    apply nextActiveLoop_first; try lia; [|exact Hat].
    intros j Hj. apply Hbefore. lia. }
  cbv zeta. rewrite Hnext.
  pose proof (seat_after_range c (k + k0)) as Hr.
  assert (Hneq : seat_after c (k + k0) <> seat_after c k).
  { intros Heq. apply seat_after_inj in Heq; lia. }
  replace (seat_after c (k + k0) =? -1) with false by (symmetry; lia).
  replace (seat_after c (k + k0) =? seat_after c k) with false
    by (symmetry; lia).
  simpl.
  (* the seats before offset k0 cannot act; split the list there *)
  unfold to_fold_after. fold D.
  replace (D - k - 1) with ((k0 - 1) + (D - k - k0)) by lia.
  rewrite seqZ_app by lia. rewrite map_app, List.filter_app.
  rewrite (filter_none _ (map (seat_after c) (seqZ (k + 1) (k0 - 1)))).
  2:{ intros x Hx. apply in_map_iff in Hx as (j & <- & Hj).
      apply list_elem_of_In, elem_of_seqZ in Hj.
      rewrite <- Hsame.
      - replace j with (k + (j - k)) by lia. apply Hbefore. lia.
      - intros Heq. apply seat_after_inj in Heq; lia. }
  simpl.
  destruct (decide (k0 = D - k)) as [-> | Hlt].
  - (* the next seat that can act is the named seat *)
    replace (D - k - (D - k)) with 0 by lia. simpl.
    replace (k + (D - k)) with D by lia.
    unfold D. rewrite (seat_after_distance c t Ht).
    destruct fuel; simpl; rewrite Z.eqb_refl; reflexivity.
  - rewrite (seqZ_cons (k + 1 + (k0 - 1))) by lia. simpl.
    replace (k + 1 + (k0 - 1)) with (k + k0) by lia.
    rewrite <- (Hsame (seat_after c (k + k0)) Hneq), Hat.
    rewrite IH.
    + assert (Hnf : folded (player_at (players s1) (seat_after c (k + k0)))
                    = false).
      { unfold can_act in Hat. apply andb_true_iff in Hat as [Hnf _].
        apply negb_true_iff in Hnf. exact Hnf. }
      rewrite Hnf. simpl. f_equal. f_equal.
      unfold to_fold_after. fold D.
      replace (Z.pred (D - k - k0)) with (D - (k + k0) - 1) by lia.
      replace (Z.succ (k + k0)) with (k + k0 + 1) by lia.
      apply filter_ext_in. intros x Hx.
      apply in_map_iff in Hx as (j & <- & Hj).
      apply list_elem_of_In, elem_of_seqZ in Hj.
      rewrite Hsame; [reflexivity|].
      intros Heq. apply seat_after_inj in Heq; lia.
    + exact Hwf1.
    + lia.
    + lia.
    + exact Hcan1.
    + intros x Hx. apply elem_of_cons in Hx as [-> | Hx].
      * exists k. split; [lia | reflexivity].
      * destruct (Hproc x Hx) as (j & Hj & ->).
        exists j. split; [lia | reflexivity].
Qed.

Lemma skip_loop :
  forall fuel k processed s,
    wf s -> 0 <= k < D -> D - k <= Z.of_nat fuel ->
    can_act (player_at (players s) t) = true ->
    (forall x, x ∈ processed -> exists j, 0 <= j < k /\ x = seat_after c j) ->
    autoFoldLoop fuel (seat_after c k) t processed s
    = Returned
        (foldl (fun st j => autoFolded j st) s
           ((if folded (player_at (players s) (seat_after c k))
             then [] else [seat_after c k])
            ++ to_fold_after c t s k)).
Proof.
  induction fuel as [|fuel IH]; intros k processed s Hwf Hk Hfuel Hcan Hproc;
    [lia|].
  pose proof (seat_after_range c k) as Hr.
  cbn [autoFoldLoop].
  replace (seat_after c k =? t) with false
    by (symmetry; apply Z.eqb_neq, seat_before_t; exact Hk).
  rewrite bool_decide_eq_false_2.
  2:{ intros Hin. destruct (Hproc _ Hin) as (j & Hj & Heq).
      pose proof D_range. apply seat_after_inj in Heq; lia. }
  replace ((seat_after c k <? 0)
           || (seat_after c k >=? Z.of_nat (length (players s))))
    with false
    by (rewrite Hwf; symmetry; apply orb_false_iff;
        split; [apply Z.ltb_ge; lia
               | rewrite Z.geb_leb; apply Z.leb_gt; lia]).
  destruct (folded (player_at (players s) (seat_after c k))) eqn:Ef;
    cbn [negb bind].
  - apply (skip_loop_continue fuel k processed s s IH); auto.
  - rewrite (recordAction_autoFold _ s Hr Ef). cbn [bind app foldl].
    apply (skip_loop_continue fuel k processed s
             (autoFolded (seat_after c k) s) IH); auto.
    + apply autoFolded_wf; assumption.
    + intros j Hj. apply autoFolded_player_at_ne; auto.
Qed.

(** The loop of [autoFoldBetween] folds exactly [skipped_seats], in order,
    when the named seat can act. *)
Lemma autoFoldBetween_skipped_seats (s : Engine) :
  wf s ->
  can_act (player_at (players s) t) = true ->
  autoFoldBetween c t s
  = Returned (foldl (fun st j => autoFolded j st) s (skipped_seats s c t)).
Proof.
  intros Hwf Hcan. pose proof D_range as HD.
  unfold autoFoldBetween, skipped_seats, seats_between.
  rewrite <- (seat_after_0 c Hc) at 1.
  rewrite (skip_loop 8 0 [] s Hwf); [| lia | simpl; lia | exact Hcan |].
  - rewrite (seat_after_0 c Hc). unfold to_fold_after. fold D.
    replace (D - 0 - 1) with (D - 1) by lia. reflexivity.
  - intros x Hx. inversion Hx.
Qed.
End Skip.

Lemma autoFolded_actions (i : Z) (s : Engine) :
  map performed (actions (autoFolded i s))
  = map performed (actions s) ++ [(position_at i, Fold)].
Proof.
  unfold autoFolded, commit. simpl. rewrite map_app. reflexivity.
Qed.

Lemma foldl_autoFolded_effect (l : list Z) :
  forall s,
    wf s ->
    (forall j, j ∈ l -> 0 <= j < 6) ->
    let s1 := foldl (fun st j => autoFolded j st) s l in
    wf s1 /\
    map performed (actions s1)
    = map performed (actions s) ++ map (fun j => (position_at j, Fold)) l /\
    (forall j, folded (player_at (players s1) j) = true <->
               folded (player_at (players s) j) = true \/ j ∈ l) /\
    (forall j, stack (player_at (players s1) j)
               = stack (player_at (players s) j)) /\
    (forall j, contributed (player_at (players s1) j)
               = contributed (player_at (players s) j)).
Proof.
  induction l as [|x l IH]; intros s Hwf Hl; simpl.
  - split; [exact Hwf|]. split; [rewrite app_nil_r; reflexivity|].
    split; [|split; reflexivity].
    intros j. split; [auto|]. intros [H | H]; [exact H | inversion H].
  - assert (Hx : 0 <= x < 6) by (apply Hl; left).
    destruct (IH (autoFolded x s) (autoFolded_wf x s Hwf Hx))
      as (Hwf1 & Hact & Hfold & Hstack & Hcontr).
    { intros j Hj. apply Hl. right. exact Hj. }
    assert (Hsame : forall j,
              stack (player_at (players (autoFolded x s)) j)
                = stack (player_at (players s) j) /\
              contributed (player_at (players (autoFolded x s)) j)
                = contributed (player_at (players s) j)).
    { intros j. destruct (decide (x = j)) as [<- | Hne].
      - rewrite autoFolded_player_at_eq by assumption. split; reflexivity.
      - rewrite autoFolded_player_at_ne by assumption. split; reflexivity. }
    split; [exact Hwf1|]. split.
    + rewrite Hact, autoFolded_actions, <- app_assoc. reflexivity.
    + split; [|split].
      * intros j. rewrite Hfold. rewrite elem_of_cons.
        destruct (decide (x = j)) as [<- | Hne].
        -- rewrite autoFolded_player_at_eq by assumption. simpl. tauto.
        -- rewrite autoFolded_player_at_ne by assumption.
           split; [intros [H | H]; auto | intros [H | [H | H]]; auto].
      * intros j. rewrite Hstack. apply Hsame.
      * intros j. rewrite Hcontr. apply Hsame.
Qed.

Lemma skipped_seats_range (s : Engine) (c t j : Z) :
  0 <= c < 6 -> j ∈ skipped_seats s c t -> 0 <= j < 6.
Proof.
  intros Hc Hj. unfold skipped_seats in Hj.
  apply elem_of_app in Hj as [Hj | Hj].
  - destruct (folded (player_at (players s) c)); [inversion Hj|].
    apply list_elem_of_singleton in Hj. lia.
  - apply list_elem_of_In, filter_In in Hj as [Hj _].
    apply in_map_iff in Hj as (k & <- & _). apply seat_after_range.
Qed.

(** C6, as the code has it.  On a fresh hand with hero BTN and stack 100,
    the single call [addPreflopAction(BTN, Raise, 3)] is accepted, the
    history is [UTG Fold, HJ Fold, CO Fold, BTN Raise 3], the current actor
    is SB and the pot is 4.5.  In general, when the named seat is not the
    current actor and can act (not folded, more than 0.01 behind), the skip
    folds, in clockwise order, the current actor (unless already folded) and
    then every seat before the named one that can act; it appends one Fold
    record per such seat and changes no stack or contribution.  A seat in
    between that is not folded but has 0.01 or less behind is passed over. *)
Theorem preflop_skip :
  (let s0 := new_engine (Some BTN) 100 in
   exists s1,
     addPreflopAction BTN Raise (Some 3%Q) s0 = Returned s1 /\
     map summary (actions s1)
     = [(UTG, Fold, None); (HJ, Fold, None); (CO, Fold, None);
        (BTN, Raise, Some 3%Q)] /\
     getCurrentActor s1 = Some SB /\
     (pot (street s1) == 4.5)%Q) /\
  (forall (s : Engine) (pos : Position),
     wf s ->
     0 <= currentActorIndex s < 6 ->
     currentActorIndex s <> getPlayerIndex pos ->
     can_act (player_at (players s) (getPlayerIndex pos)) = true ->
     let c := currentActorIndex s in
     let t := getPlayerIndex pos in
     exists s1,
       autoFoldBetween c t s = Returned s1 /\
       s1 = foldl (fun st j => autoFolded j st) s (skipped_seats s c t) /\
       map performed (actions s1)
       = map performed (actions s)
         ++ map (fun j => (position_at j, Fold)) (skipped_seats s c t) /\
       (forall j, folded (player_at (players s1) j) = true <->
                  folded (player_at (players s) j) = true \/
                  j ∈ skipped_seats s c t) /\
       (forall j, stack (player_at (players s1) j)
                  = stack (player_at (players s) j)) /\
       (forall j, contributed (player_at (players s1) j)
                  = contributed (player_at (players s) j))).
Proof.
  split.
  - intros s0.
    exists (state_after s0 (addPreflopAction BTN Raise (Some 3%Q) s0)).
    split; [vm_compute; reflexivity|].
    split; [vm_compute; reflexivity|].
    split; vm_compute; reflexivity.
  - intros s pos Hwf Hc Hne Hcan c t.
    pose proof (getPlayerIndex_range pos) as Ht.
    exists (foldl (fun st j => autoFolded j st) s (skipped_seats s c t)).
    split; [apply autoFoldBetween_skipped_seats; assumption|].
    split; [reflexivity|].
    destruct (foldl_autoFolded_effect (skipped_seats s c t) s Hwf)
      as (_ & Hact & Hfold & Hstack & Hcontr).
    { intros j Hj. exact (skipped_seats_range s c t j Hc Hj). }
    repeat split; try assumption; apply Hfold.
Qed.

Lemma preflop_skip_witness :
  let s := new_engine (Some BTN) 100 in
  wf s /\
  can_act (player_at (players s) (getPlayerIndex BTN)) = true /\
  skipped_seats s (currentActorIndex s) (getPlayerIndex BTN) = [2; 3; 4] /\
  exists s1,
    autoFoldBetween (currentActorIndex s) (getPlayerIndex BTN) s
      = Returned s1 /\
    map performed (actions s1)
    = map performed (actions s)
      ++ map (fun j => (position_at j, Fold))
             (skipped_seats s (currentActorIndex s) (getPlayerIndex BTN)).
Proof.
  intros s.
  split; [reflexivity|].
  split; [vm_compute; reflexivity|].
  split; [vm_compute; reflexivity|].
  destruct (proj2 preflop_skip s BTN) as (s1 & Hrun & _ & Hact & _).
  - reflexivity.
  - vm_compute. split; [discriminate | reflexivity].
  - vm_compute. discriminate.
  - vm_compute. reflexivity.
  - exists s1. split; [exact Hrun | exact Hact].
Defined.

(** The general clause as the spec states it fails with stack 1: BB is
    all-in from the blind.  After UTG puts in 0.5, the current actor is HJ;
    [addPreflopAction(UTG, Raise, 1)] is accepted and its skip folds HJ, CO,
    BTN and SB, but not BB, a non-folded seat between HJ and UTG. *)
Lemma skip_passes_over_all_in_seat :
  let s0 := new_engine None 1 in
  let s1 := state_after s0 (addPreflopAction UTG Raise (Some 0.5%Q) s0) in
  let s2 := state_after s1 (addPreflopAction UTG Raise (Some 1%Q) s1) in
  addPreflopAction UTG Raise (Some 0.5%Q) s0 = Returned s1 /\
  phase (street s1) = Preflop /\
  getCurrentActor s1 = Some HJ /\
  map folded (players s1) = [false; false; false; false; false; false] /\
  seats_between (currentActorIndex s1) (getPlayerIndex UTG) = [4; 5; 0; 1] /\
  addPreflopAction UTG Raise (Some 1%Q) s1 = Returned s2 /\
  map performed (actions s2)
  = [(UTG, Raise); (HJ, Fold); (CO, Fold); (BTN, Fold); (SB, Fold);
     (UTG, Raise)] /\
  map folded (players s2) = [true; false; false; true; true; true] /\
  folded (player_at (players s2) (getPlayerIndex BB)) = false.
Proof.
  intros s0 s1 s2.
  split; [vm_compute; reflexivity|].
  split; [vm_compute; reflexivity|].
  split; [vm_compute; reflexivity|].
  split; [vm_compute; reflexivity|].
  split; [vm_compute; reflexivity|].
  split; [vm_compute; reflexivity|].
  split; [vm_compute; reflexivity|].
  split; vm_compute; reflexivity.
Qed.


(** * Further properties of the engine *)

(** ** What one recorded action changes, in full *)

Lemma recordAction_recorded (pos : Position) (a : ActionType)
    (sz : option Q) (skip : bool) (s s' : Engine) :
  wf s ->
  recordAction pos a sz skip s = Returned s' ->
  exists x bs,
    recorded pos a x bs s s' /\
    (if moves_chips a then bs = Some x else bs = sz).
Proof.
  intros Hwf H. pose proof (getPlayerIndex_range pos) as Hr.
  set (i := getPlayerIndex pos) in *.
  set (p := player_at (players s) i).
  assert (Hi : 0 <= i < Z.of_nat (length (players s))) by (rewrite Hwf; lia).
  unfold recordAction in H. fold i in H. fold p in H.
  destruct (folded p) eqn:Ef; [discriminate|].
  destruct (negb skip && bool_decide (a = Fold) && canCheck s pos
            && negb (bool_decide (phase (street s) = Preflop)));
    [discriminate|].
  destruct a.
  - injection H as <-. exists 0%Q, sz. split; [|reflexivity].
    unfold recorded. fold i. fold p. split; [exact Ef|]. split; [reflexivity|].
    exists (set_acted (set_folded p true) true).
    unfold commit, update_player; simpl. fold i.
    rewrite player_at_insert_eq by exact Hi.
    rewrite list_insert_insert_eq. fold p.
    repeat split; simpl; try reflexivity; try exact Ef; ring.
  - destruct (num_lt (contributed p) (currentBet (street s)));
      [discriminate|].
    injection H as <-. exists 0%Q, sz. split; [|reflexivity].
    unfold recorded. fold i. fold p. split; [exact Ef|]. split; [reflexivity|].
    exists (set_acted p true).
    unfold commit, update_player; simpl. fold i. fold p.
    repeat split; simpl; try reflexivity; try exact Ef; ring.
  - destruct (num_le (currentBet (street s) - contributed p) 0);
      [discriminate|].
    set (x := Math_min (currentBet (street s) - contributed p) (stack p)) in *.
    destruct (num_le x 0) eqn:Ex; [discriminate|].
    apply num_le_false in Ex.
    injection H as <-. exists x, (Some x). split; [|reflexivity].
    unfold recorded. fold i. fold p. split; [exact Ef|].
    split; [split; [exact Ex | apply Math_min_le_r]|].
    exists (set_acted (pay p x) true).
    unfold commit, update_player; simpl. fold i.
    rewrite player_at_insert_eq by exact Hi.
    rewrite list_insert_insert_eq. fold p.
    repeat split; simpl; try reflexivity; exact Ef.
  - destruct (num_lt 0 (currentBet (street s))); [discriminate|].
    destruct sz as [size|]; [|discriminate].
    destruct (num_le size 0); [discriminate|].
    set (x := Math_min size (stack p)) in *.
    destruct (num_le x 0) eqn:Ex; [discriminate|].
    apply num_le_false in Ex.
    injection H as <-. exists x, (Some x). split; [|reflexivity].
    unfold recorded. fold i. fold p. split; [exact Ef|].
    split; [split; [exact Ex | apply Math_min_le_r]|].
    exists (set_acted (pay p x) true).
    unfold commit, update_player; simpl. fold i.
    rewrite !player_at_insert_eq by (rewrite ?length_insert; exact Hi).
    rewrite list_insert_insert_eq. fold p.
    repeat split; simpl; try reflexivity; exact Ef.
  - destruct sz as [size|]; [|discriminate].
    destruct (num_le size 0); [discriminate|].
    set (x := Math_min (Math_min size (stack p + contributed p)
                        - contributed p) (stack p)) in *.
    destruct (num_le (Math_min size (stack p + contributed p)
                      - contributed p) 0) eqn:Einc; [discriminate|].
    apply num_le_false in Einc.
    assert (Hx : (0 < x)%Q).
    { unfold x. rewrite Math_min_l; [exact Einc|].
      pose proof (Math_min_le_r size (stack p + contributed p)%Q). lra. }
    injection H as <-. exists x, (Some x). split; [|reflexivity].
    unfold recorded. fold i. fold p. split; [exact Ef|].
    split; [split; [exact Hx | apply Math_min_le_r]|].
    exists (set_acted (pay p x) true).
    unfold commit, update_player; simpl. fold i.
    rewrite !player_at_insert_eq by (rewrite ?length_insert; exact Hi).
    rewrite list_insert_insert_eq. fold p.
    repeat split; simpl; try reflexivity; exact Ef.
Qed.

(** ** What a street transition changes *)

Lemma setPostflopFirstActor_rest (s : Engine) :
  actions (setPostflopFirstActor s) = actions s /\
  heroPosition (setPostflopFirstActor s) = heroPosition s /\
  stackSize (setPostflopFirstActor s) = stackSize s /\
  handResult (setPostflopFirstActor s) = handResult s.
Proof.
  unfold setPostflopFirstActor.
  repeat (match goal with
          | |- context [if ?c then _ else _] => destruct c
          end); repeat split; reflexivity.
Qed.

Lemma prepareNextStreet_rest (s : Engine) :
  actions (prepareNextStreet s) = actions s /\
  heroPosition (prepareNextStreet s) = heroPosition s /\
  stackSize (prepareNextStreet s) = stackSize s /\
  handResult (prepareNextStreet s) = handResult s.
Proof.
  unfold prepareNextStreet.
  destruct (_ >=? _); [repeat split; reflexivity|].
  match goal with
  | |- context [setPostflopFirstActor ?t] =>
      destruct (setPostflopFirstActor_rest t) as (-> & -> & -> & ->)
  end.
  repeat split; reflexivity.
Qed.

Lemma prepareNextStreet_street (s : Engine) :
  phase (street s) <> River ->
  street (prepareNextStreet s)
  = mkStreet (next_phase (phase (street s))) (pot (street s)) (pot (street s))
             0%Q None [] 0.
Proof.
  intros Hph. unfold prepareNextStreet.
  destruct (phase (street s)) eqn:E; try congruence; simpl; rewrite E; simpl;
    rewrite setPostflopFirstActor_street; reflexivity.
Qed.

Lemma prepareNextStreet_waiting (s : Engine) :
  waitingForBoard s = true -> waitingForBoard (prepareNextStreet s) = true.
Proof.
  intros Hw. unfold prepareNextStreet.
  destruct (_ >=? _); [exact Hw|].
  unfold setPostflopFirstActor.
  repeat (match goal with
          | |- context [if ?c then _ else _] => destruct c
          end); simpl; try reflexivity; exact Hw.
Qed.

(** ** Relations between the state before and after a call *)

Section StepRelation.
Variable R : Engine -> Engine -> Prop.
Hypothesis R_refl : forall s, R s s.
Hypothesis R_trans : forall s1 s2 s3, R s1 s2 -> R s2 s3 -> R s1 s3.
Hypothesis R_record :
  forall pos a sz skip s s',
    wf s -> recordAction pos a sz skip s = Returned s' -> R s s'.
Hypothesis R_actor : forall s i, R s (set_currentActorIndex s i).
Hypothesis R_waiting : forall s b, R s (set_waitingForBoard s b).
Hypothesis R_prepare : forall s, R s (prepareNextStreet s).

Lemma rel_advanceToNextActor (s : Engine) : R s (advanceToNextActor s).
Proof.
  unfold advanceToNextActor.
  destruct (getActivePlayerCount s <=? 1); [apply R_actor|].
  destruct (isStreetComplete s _).
  - destruct (bool_decide (phase (street s) = River)); [apply R_actor|].
    exact (R_trans _ _ _ (R_waiting s true) (R_prepare _)).
  - destruct (_ =? -1); apply R_actor.
Qed.

Lemma rel_confirmBoard (s : Engine) : R s (confirmBoard s).
Proof.
  unfold confirmBoard.
  repeat (match goal with
          | |- context [if ?c then _ else _] => destruct c
          end); auto.
  exact (R_trans _ _ _ (R_actor s (-1)) (R_waiting _ false)).
Qed.

Lemma rel_autoFoldLoop (endIndex : Z) :
  forall fuel idx processed s,
    wf s -> R s (state_after s (autoFoldLoop fuel idx endIndex processed s)).
Proof.
  induction fuel as [|fuel IH]; intros idx processed s Hwf; simpl.
  - destruct (idx =? endIndex); apply R_refl.
  - destruct (idx =? endIndex); [apply R_refl|].
    destruct (bool_decide (idx ∈ processed)); [apply R_refl|].
    destruct ((idx <? 0) || (idx >=? Z.of_nat (length (players s))));
      [apply R_refl|].
    destruct (negb (folded (player_at (players s) idx))).
    + destruct (recordAction (position_at idx) Fold None true s)
        as [s1|e s1|] eqn:Er; simpl.
      * pose proof (R_record _ _ _ _ _ _ Hwf Er) as HR1.
        pose proof (keeps_wf _ _ (keeps_recordAction _ _ _ _ _ _ Hwf Er) Hwf)
          as Hwf1.
        destruct ((getNextActivePlayerIndex s1 idx =? -1)
                  || (getNextActivePlayerIndex s1 idx =? idx)); [exact HR1|].
        specialize (IH (getNextActivePlayerIndex s1 idx) (idx :: processed)
                       s1 Hwf1).
        destruct (autoFoldLoop fuel _ endIndex (idx :: processed) s1);
          simpl in *;
          [exact (R_trans _ _ _ HR1 IH) | exact (R_trans _ _ _ HR1 IH)
           | apply R_refl].
      * apply recordAction_Threw_unchanged in Er. subst. apply R_refl.
      * apply R_refl.
    + simpl.
      destruct ((getNextActivePlayerIndex s idx =? -1)
                || (getNextActivePlayerIndex s idx =? idx)); [apply R_refl|].
      apply IH. exact Hwf.
Qed.

Lemma rel_run (c : Command) (s : Engine) :
  wf s -> R s (state_after s (run c s)).
Proof.
  intros Hwf. destruct c as [pos a sz | pos a sz |]; simpl.
  - unfold addPreflopAction.
    destruct (negb (bool_decide (phase (street s) = Preflop)));
      [apply R_refl|].
    assert (H1 : R s (state_after s
              (if negb (getPlayerIndex pos =? currentActorIndex s)
               then autoFoldBetween (currentActorIndex s)
                      (getPlayerIndex pos) s
               else Returned s)) /\
            wf (state_after s
              (if negb (getPlayerIndex pos =? currentActorIndex s)
               then autoFoldBetween (currentActorIndex s)
                      (getPlayerIndex pos) s
               else Returned s))).
    { destruct (negb _); [|split; [apply R_refl | exact Hwf]]. split.
      - apply rel_autoFoldLoop; assumption.
      - exact (keeps_wf _ _ (keeps_autoFoldLoop _ _ _ _ _ Hwf) Hwf). }
    destruct (if negb (getPlayerIndex pos =? currentActorIndex s)
              then autoFoldBetween (currentActorIndex s) (getPlayerIndex pos) s
              else Returned s) as [s1|e s1|]; simpl in *;
      [| exact (proj1 H1) | apply R_refl].
    destruct H1 as [HR1 Hwf1].
    destruct (recordAction pos a sz false
                (set_currentActorIndex s1 (getPlayerIndex pos)))
      as [s3|e s3|] eqn:Er; simpl.
    + apply (R_trans _ _ _ HR1).
      apply (R_trans _ _ _ (R_actor s1 (getPlayerIndex pos))).
      refine (R_trans _ _ _ (R_record _ _ _ _ _ _ _ Er)
                (rel_advanceToNextActor s3)).
      exact Hwf1.
    + apply recordAction_Threw_unchanged in Er. subst.
      exact (R_trans _ _ _ HR1 (R_actor s1 (getPlayerIndex pos))).
    + destruct (recordAction_no_OutOfFuel _ _ _ _ _ Er).
  - unfold addPostflopAction.
    destruct (bool_decide (phase (street s) = Preflop)); [apply R_refl|].
    destruct (negb (getPlayerIndex pos =? currentActorIndex s));
      [apply R_refl|].
    destruct (recordAction pos a sz false s) as [s1|e s1|] eqn:Er; simpl.
    + exact (R_trans _ _ _ (R_record _ _ _ _ _ _ Hwf Er)
               (rel_advanceToNextActor s1)).
    + apply recordAction_Threw_unchanged in Er. subst. apply R_refl.
    + apply R_refl.
  - apply rel_confirmBoard.
Qed.

Lemma rel_run_all (cs : list Command) :
  forall s, wf s -> R s (run_all cs s).
Proof.
  induction cs as [|c cs IH]; intros s Hwf; simpl.
  - apply R_refl.
  - apply (R_trans _ _ _ (rel_run c s Hwf)). apply IH.
    exact (keeps_wf _ _ (keeps_run c s Hwf) Hwf).
Qed.
End StepRelation.

(** ** The ledger and the betting contract *)

Lemma sum_totalContributed_insert (ps : list PlayerState) (i : nat)
    (p p' : PlayerState) :
  ps !! i = Some p ->
  (sum_totalContributed (<[i := p']> ps)
   == sum_totalContributed ps - totalContributed p + totalContributed p')%Q.
Proof.
  revert i. induction ps as [|q ps IH]; intros i Hl.
  - rewrite lookup_nil in Hl. discriminate.
  - destruct i as [|i]; simpl in *.
    + injection Hl as ->. ring.
    + rewrite (IH i Hl). ring.
Qed.

Lemma sum_totalContributed_reset (ps : list PlayerState) :
  sum_totalContributed (map reset_street ps) = sum_totalContributed ps.
Proof.
  induction ps as [|q ps IH]; simpl; [reflexivity|]. rewrite IH. reflexivity.
Qed.

Lemma books_record (pos : Position) (a : ActionType) (sz : option Q)
    (skip : bool) (s s' : Engine) :
  wf s -> books s -> recordAction pos a sz skip s = Returned s' -> books s'.
Proof.
  intros Hwf [(Hpl & Hpot & Hssp & Hle) (Hrc & Hagg & Hla & Hpre & Hpost & Hpos)] H.
  pose proof (getPlayerIndex_range pos) as Hr.
  destruct (recordAction_recorded _ _ _ _ _ _ Hwf H)
    as (x & bs & (Hnf & Hx & p' & Hp & _ & _ & _ & _ & Hst & Hc & Ht & Hstreet
                  & _ & _ & Hsz & _) & _).
  set (i := getPlayerIndex pos) in *.
  set (p := player_at (players s) i) in *.
  assert (Hlk : players s !! Z.to_nat i = Some p)
    by (apply player_at_lookup; rewrite Hwf; lia).
  destruct (Forall_lookup_1 _ _ _ _ Hpl Hlk) as (Hc0 & Hct & Hcons & Hnn).
  assert (Hx0 : (0 <= x)%Q /\ ((1 <= stackSize s)%Q -> (x <= stack p)%Q)).
  { destruct (moves_chips a).
    - destruct Hx. split; [lra | auto].
    - subst x. split; [lra|]. intros H1. specialize (Hnn H1). lra. }
  destruct Hx0 as [Hx0 Hxs].
  split.
  - unfold ledger. rewrite Hp, Hsz, Hstreet. simpl.
    split.
    + apply Forall_insert; [exact Hpl|].
      unfold ledger_player. rewrite Hc, Ht, Hst.
      split; [lra|]. split; [lra|]. split; [lra|].
      intros H1. specialize (Hxs H1). lra.
    + split.
      * rewrite (sum_totalContributed_insert _ _ p p' Hlk). rewrite Ht, Hpot.
        ring.
      * split; [exact Hssp | lra].
  - unfold contract. rewrite Hstreet. simpl.
    destruct (aggressive a) eqn:Ea.
    + assert (Hxpos : (0 < x)%Q).
      { destruct a; try discriminate; simpl in Hx; tauto. }
      split; [lia|]. split; [split; [lia | discriminate]|].
      split; [intros la Heq; injection Heq as <-; exact Hr|].
      split; [intros _; rewrite Hc; lra|].
      split; [intros _ Hz; lia|].
      intros _. rewrite Hc. lra.
    + exact (conj Hrc (conj Hagg (conj Hla (conj Hpre (conj Hpost Hpos))))).
Qed.

Lemma books_prepare (s : Engine) :
  books s -> phase (street s) <> River -> books (prepareNextStreet s).
Proof.
  intros [(Hpl & Hpot & Hssp & Hle) _] Hph.
  destruct (prepareNextStreet_rest s) as (_ & _ & Hsz & _).
  split.
  - unfold ledger.
    rewrite prepareNextStreet_players, Hsz, prepareNextStreet_street by exact Hph.
    simpl. split.
    + apply Forall_fmap. eapply Forall_impl; [exact Hpl|].
      intros p (Hc0 & Hct & Hcons & Hnn). unfold ledger_player. simpl.
      split; [lra|]. split; [lra|]. split; assumption.
    + rewrite sum_totalContributed_reset.
      split; [exact Hpot|]. split; lra.
  - unfold contract. rewrite prepareNextStreet_street by exact Hph. simpl.
    split; [lia|]. split; [tauto|]. split; [discriminate|].
    split; [destruct (phase (street s)); simpl; congruence|].
    split; [intros; reflexivity | lia].
Qed.

Lemma books_new (hero : option Position) (stackSz : Q) :
  books (new_engine hero stackSz).
Proof.
  split.
  - unfold ledger. simpl. split.
    + repeat constructor; simpl; try lra.
    + repeat split; try reflexivity; lra.
  - unfold contract. simpl.
    split; [lia|]. split; [tauto|]. split; [discriminate|].
    split; [reflexivity|]. split; [congruence | lia].
Qed.

Lemma books_reachable (s : Engine) : reachable s -> wf s /\ books s.
Proof.
  apply (inv_reachable books books_record).
  - intros s0 i H. exact H.
  - intros s0 b H. exact H.
  - exact books_prepare.
  - exact books_new.
Qed.

Lemma reachable_run_all (cs : list Command) :
  forall s, reachable s -> reachable (run_all cs s).
Proof.
  induction cs as [|c cs IH]; intros s Hr; simpl; [exact Hr|].
  apply IH. apply reachable_call. exact Hr.
Qed.

Lemma reachable_flop_bet_state : reachable flop_bet_state.
Proof. apply reachable_run_all. apply reachable_new. Qed.









(** X5. In every reachable state [raiseCount] is not negative, it is 0
    exactly when there is no last aggressor, a last aggressor is one of
    the six seats, the bet to match is positive on Preflop, and on the later
    streets it is 0 exactly when nobody has bet or raised on the street. *)
Theorem betting_contract (s : Engine) :
  reachable s ->
  0 <= getRaiseCount s /\
  (getRaiseCount s = 0 <-> lastAggressorIndex (street s) = None) /\
  (forall la, lastAggressorIndex (street s) = Some la -> 0 <= la < 6) /\
  (getPhase s = Preflop -> (0 < getCurrentBet s)%Q) /\
  (getPhase s <> Preflop ->
     (getRaiseCount s = 0 <-> (getCurrentBet s == 0)%Q)).
Proof.
  intros Hr.
  destruct (books_reachable s Hr)
    as [_ [_ (Hrc & Hagg & Hla & Hpre & Hpost & Hpos)]].
  unfold getRaiseCount, getPhase, getCurrentBet.
  split; [exact Hrc|]. split; [exact Hagg|]. split; [exact Hla|].
  split; [exact Hpre|].
  intros Hph. split; [exact (Hpost Hph)|].
  intros Hz. destruct (decide (raiseCount (street s) = 0)) as [|Hne];
    [assumption|].
  assert (Hp : 0 < raiseCount (street s)) by lia.
  specialize (Hpos Hp). lra.
Qed.

Lemma betting_contract_witness :
  let s := flop_bet_state in
  0 <= getRaiseCount s /\
  (getRaiseCount s = 0 <-> lastAggressorIndex (street s) = None) /\
  (forall la, lastAggressorIndex (street s) = Some la -> 0 <= la < 6) /\
  (getPhase s = Preflop -> (0 < getCurrentBet s)%Q) /\
  (getPhase s <> Preflop ->
     (getRaiseCount s = 0 <-> (getCurrentBet s == 0)%Q)).
Proof.
  intros s. apply (betting_contract s). exact reachable_flop_bet_state.
Defined.

(** ** The seats *)

Lemma position_at_getPlayerIndex (pos : Position) :
  position_at (getPlayerIndex pos) = pos.
Proof. destruct pos; reflexivity. Qed.

Lemma map_insert_same {A B} (f : A -> B) (l : list A) (i : nat) (x y : A) :
  l !! i = Some x -> f y = f x -> map f (<[i := y]> l) = map f l.
Proof.
  intros Hl Hf. change (f <$> <[i := y]> l = f <$> l).
  rewrite list_fmap_insert, Hf.
  apply list_insert_id. rewrite list_lookup_fmap, Hl. reflexivity.
Qed.

Lemma seats_ok_record (pos : Position) (a : ActionType) (sz : option Q)
    (skip : bool) (s s' : Engine) :
  wf s -> seats_ok s -> recordAction pos a sz skip s = Returned s' ->
  seats_ok s'.
Proof.
  intros Hwf [Hpos Hhero] H. pose proof (getPlayerIndex_range pos) as Hr.
  destruct (recordAction_recorded _ _ _ _ _ _ Hwf H)
    as (x & bs & (_ & _ & p' & Hp & Hpp & Hph & _ & _ & _ & _ & _ & _ & _
                  & Hh & _) & _).
  assert (Hlk : players s !! Z.to_nat (getPlayerIndex pos)
                = Some (player_at (players s) (getPlayerIndex pos)))
    by (apply player_at_lookup; rewrite Hwf; lia).
  unfold seats_ok. rewrite Hp, Hh.
  rewrite (map_insert_same position _ _ _ _ Hlk Hpp).
  rewrite (map_insert_same isHero _ _ _ _ Hlk Hph).
  split; assumption.
Qed.

Lemma seats_ok_prepare (s : Engine) :
  seats_ok s -> phase (street s) <> River -> seats_ok (prepareNextStreet s).
Proof.
  intros [Hpos Hhero] _.
  destruct (prepareNextStreet_rest s) as (_ & Hh & _ & _).
  unfold seats_ok. rewrite prepareNextStreet_players, Hh, !map_map.
  split; assumption.
Qed.

Lemma seats_ok_reachable (s : Engine) : reachable s -> wf s /\ seats_ok s.
Proof.
  apply (inv_reachable seats_ok seats_ok_record).
  - intros s0 i H. exact H.
  - intros s0 b H. exact H.
  - exact seats_ok_prepare.
  - intros hero stackSz. split; reflexivity.
Qed.

Lemma seats_ok_position (s : Engine) (i : Z) :
  wf s -> seats_ok s -> 0 <= i < 6 ->
  position (player_at (players s) i) = position_at i.
Proof.
  intros Hwf [Hpos _] Hi.
  assert (Hlk : players s !! Z.to_nat i = Some (player_at (players s) i))
    by (apply player_at_lookup; rewrite Hwf; lia).
  apply (f_equal (fun l => l !! Z.to_nat i)) in Hpos.
  change (map position (players s)) with (position <$> players s) in Hpos.
  rewrite list_lookup_fmap, Hlk in Hpos. simpl in Hpos.
  unfold position_at.
  destruct (i <? 0) eqn:E; [lia|]. rewrite <- Hpos. reflexivity.
Qed.

Lemma find_player_at (ps : list PlayerState) (pos : Position) :
  map position ps = POSITION_ORDER ->
  find_player ps pos = Some (player_at ps (getPlayerIndex pos)).
Proof.
  intros Hpos.
  destruct ps as [|p0 [|p1 [|p2 [|p3 [|p4 [|p5 [|]]]]]]]; try discriminate.
  injection Hpos as H0 H1 H2 H3 H4 H5.
  unfold find_player. simpl. rewrite H0, H1, H2, H3, H4, H5.
  destruct pos; reflexivity.
Qed.

(** X6. In every reachable state the six players sit in ring order
    (players[i].position is POSITION_ORDER[i]), so a search of the array by
    position finds the entry at that position's index, and a player is
    marked hero exactly when its position is the engine's hero position. *)
Theorem seats_keep_their_identity (s : Engine) (pos : Position) :
  reachable s ->
  map position (players s) = POSITION_ORDER /\
  find_player (players s) pos
  = Some (player_at (players s) (getPlayerIndex pos)) /\
  position (player_at (players s) (getPlayerIndex pos)) = pos /\
  isHero (player_at (players s) (getPlayerIndex pos))
  = bool_decide (Some pos = heroPosition s).
Proof.
  intros Hr. destruct (seats_ok_reachable s Hr) as [Hwf Hok].
  pose proof (getPlayerIndex_range pos) as Hi.
  split; [exact (proj1 Hok)|].
  split; [exact (find_player_at _ pos (proj1 Hok))|].
  split.
  - rewrite (seats_ok_position s _ Hwf Hok Hi).
    apply position_at_getPlayerIndex.
  - destruct Hok as [_ Hhero].
    assert (Hlk : players s !! Z.to_nat (getPlayerIndex pos)
                  = Some (player_at (players s) (getPlayerIndex pos)))
      by (apply player_at_lookup; rewrite Hwf; lia).
    apply (f_equal (fun l => l !! Z.to_nat (getPlayerIndex pos))) in Hhero.
    change (map isHero (players s)) with (isHero <$> players s) in Hhero.
    rewrite list_lookup_fmap, Hlk in Hhero. simpl in Hhero.
    destruct pos; simpl in Hhero; injection Hhero as ->; reflexivity.
Qed.

Lemma seats_keep_their_identity_witness :
  let s := flop_bet_state in
  map position (players s) = POSITION_ORDER /\
  find_player (players s) BTN
  = Some (player_at (players s) (getPlayerIndex BTN)) /\
  position (player_at (players s) (getPlayerIndex BTN)) = BTN /\
  isHero (player_at (players s) (getPlayerIndex BTN))
  = bool_decide (Some BTN = heroPosition s).
Proof.
  intros s. apply (seats_keep_their_identity s BTN).
  exact reachable_flop_bet_state.
Defined.

(** ** The history *)

Lemma ordered_nil {A} (R : A -> A -> Prop) : ordered R [].
Proof. intros i j x y _ Hx. rewrite lookup_nil in Hx. discriminate. Qed.

Lemma ordered_snoc {A} (R : A -> A -> Prop) (l : list A) (z : A) :
  ordered R l -> Forall (fun y => R y z) l -> ordered R (l ++ [z]).
Proof.
  intros Ho Hall i j x y Hij Hx Hy.
  assert (Hj : (j < length (l ++ [z]))%nat) by (eapply lookup_lt_Some; eauto).
  rewrite length_app in Hj. simpl in Hj.
  rewrite lookup_app_l in Hx by lia.
  destruct (decide (j < length l)%nat) as [Hlt | Hge].
  - rewrite lookup_app_l in Hy by lia. exact (Ho i j x y Hij Hx Hy).
  - rewrite lookup_app_r in Hy by lia.
    replace (j - length l)%nat with 0%nat in Hy by lia.
    injection Hy as <-. exact (Forall_lookup_1 _ _ _ _ Hall Hx).
Qed.

Lemma phase_index_next (ph : Phase) :
  ph <> River -> phase_index ph < phase_index (next_phase ph).
Proof. destruct ph; intros H; try congruence; vm_compute; reflexivity. Qed.

Lemma journal_record (pos : Position) (a : ActionType) (sz : option Q)
    (skip : bool) (s s' : Engine) :
  wf s -> journal s -> recordAction pos a sz skip s = Returned s' -> journal s'.
Proof.
  intros Hwf ((old & Hold & Holdlt) & Hats & Hoph & Hrc & Hla & Hopot
              & Hpotle & Hlast) H.
  destruct (recordAction_recorded _ _ _ _ _ _ Hwf H)
    as (x & bs & (_ & Hx & p' & _ & _ & _ & _ & _ & _ & _ & _ & Hstreet
                  & Hact & _) & _).
  assert (Hx0 : (0 <= x)%Q).
  { destruct (moves_chips a); [destruct Hx; lra | subst x; lra]. }
  set (r := mkAction pos a bs (pot (street s) + x)%Q (phase (street s))) in *.
  unfold journal. rewrite Hstreet, Hact. simpl.
  split.
  { exists old. split; [rewrite Hold, app_assoc; reflexivity | exact Holdlt]. }
  split.
  { apply Forall_app. split; [exact Hats | repeat constructor]. }
  split.
  { apply ordered_snoc; [exact Hoph|]. rewrite Hold. apply Forall_app. split.
    - eapply Forall_impl; [exact Holdlt|]. simpl. intros; lia.
    - eapply Forall_impl; [exact Hats|]. simpl. intros q ->. lia. }
  rewrite List.filter_app. simpl. unfold is_aggressive at 2 4. simpl.
  destruct (aggressive a).
  - split; [rewrite length_app; simpl; lia|].
    split; [rewrite last_snoc; reflexivity|].
    split.
    { apply ordered_snoc; [exact Hopot|].
      eapply Forall_impl; [exact Hpotle|]. simpl. intros; lra. }
    split.
    { apply Forall_app. split.
      - eapply Forall_impl; [exact Hpotle|]. simpl. intros; lra.
      - repeat constructor. simpl. lra. }
    intros q Hq. rewrite last_snoc in Hq. injection Hq as <-. reflexivity.
  - rewrite app_nil_r.
    split; [exact Hrc|]. split; [exact Hla|].
    split.
    { apply ordered_snoc; [exact Hopot|].
      eapply Forall_impl; [exact Hpotle|]. simpl. intros; lra. }
    split.
    { apply Forall_app. split.
      - eapply Forall_impl; [exact Hpotle|]. simpl. intros; lra.
      - repeat constructor. simpl. lra. }
    intros q Hq. rewrite last_snoc in Hq. injection Hq as <-. reflexivity.
Qed.

Lemma journal_prepare (s : Engine) :
  journal s -> phase (street s) <> River -> journal (prepareNextStreet s).
Proof.
  intros ((old & Hold & Holdlt) & Hats & Hoph & Hrc & Hla & Hopot
          & Hpotle & Hlast) Hph.
  destruct (prepareNextStreet_rest s) as (Hact & _).
  pose proof (phase_index_next _ Hph) as Hnext.
  unfold journal. rewrite prepareNextStreet_street, Hact by exact Hph. simpl.
  split.
  { exists (actions s). split; [rewrite app_nil_r; reflexivity|].
    rewrite Hold. apply Forall_app. split.
    - eapply Forall_impl; [exact Holdlt|]. simpl. intros; lia.
    - eapply Forall_impl; [exact Hats|]. simpl. intros q ->. lia. }
  split; [constructor|]. split; [exact Hoph|].
  split; [reflexivity|]. split; [reflexivity|].
  split; [exact Hopot|]. split; [exact Hpotle | exact Hlast].
Qed.

Lemma journal_new (hero : option Position) (stackSz : Q) :
  journal (new_engine hero stackSz).
Proof.
  unfold journal. simpl.
  split; [exists []; split; [reflexivity | constructor]|].
  split; [constructor|]. split; [apply ordered_nil|].
  split; [reflexivity|]. split; [reflexivity|].
  split; [apply ordered_nil|]. split; [constructor|].
  intros r Hr. discriminate.
Qed.

Lemma journal_reachable (s : Engine) : reachable s -> wf s /\ journal s.
Proof.
  apply (inv_reachable journal journal_record).
  - intros s0 i H. exact H.
  - intros s0 b H. exact H.
  - exact journal_prepare.
  - exact journal_new.
Qed.

Lemma by_seat_of (pos : Position) (j : Z) (a : ActionType) (bs : option Q)
    (x : Q) (ph : Phase) :
  0 <= j < 6 ->
  by_seat j (mkAction pos a bs x ph) = bool_decide (getPlayerIndex pos = j).
Proof.
  intros Hj. unfold by_seat. simpl.
  destruct (decide (getPlayerIndex pos = j)) as [<- | Hne].
  - rewrite position_at_getPlayerIndex.
    rewrite !bool_decide_eq_true_2; reflexivity.
  - rewrite !bool_decide_eq_false_2; [reflexivity | exact Hne |].
    intros ->. apply Hne. apply getPlayerIndex_position_at. exact Hj.
Qed.

Lemma fold_by_seat_of (pos : Position) (j : Z) (a : ActionType)
    (bs : option Q) (x : Q) (ph : Phase) :
  0 <= j < 6 ->
  fold_by_seat j (mkAction pos a bs x ph)
  = bool_decide (getPlayerIndex pos = j) && bool_decide (a = Fold).
Proof.
  intros Hj. unfold fold_by_seat, performed. simpl.
  destruct (decide (getPlayerIndex pos = j)) as [<- | Hne].
  - rewrite position_at_getPlayerIndex.
    rewrite (bool_decide_eq_true_2 (getPlayerIndex pos = getPlayerIndex pos))
      by reflexivity.
    simpl. destruct (decide (a = Fold)) as [-> | Hna].
    + rewrite !bool_decide_eq_true_2; reflexivity.
    + rewrite (bool_decide_eq_false_2 (a = Fold)) by exact Hna.
      apply bool_decide_eq_false_2. intros Heq. injection Heq as Heq.
      exact (Hna Heq).
  - rewrite (bool_decide_eq_false_2 (getPlayerIndex pos = j)) by exact Hne.
    simpl. apply bool_decide_eq_false_2. intros Heq.
    injection Heq as -> _. apply Hne. apply getPlayerIndex_position_at.
    exact Hj.
Qed.

Lemma flags_ok_record (pos : Position) (a : ActionType) (sz : option Q)
    (skip : bool) (s s' : Engine) :
  wf s -> flags_ok s -> recordAction pos a sz skip s = Returned s' ->
  flags_ok s'.
Proof.
  intros Hwf Hfl H. pose proof (getPlayerIndex_range pos) as Hr.
  destruct (recordAction_recorded _ _ _ _ _ _ Hwf H)
    as (x & bs & (Hnf & _ & p' & Hp & _ & _ & Hacted & Hfolded & _ & _ & _
                  & Hstreet & Hact & _) & _).
  intros j Hj. destruct (Hfl j Hj) as [Ha Hf].
  rewrite Hp, Hstreet, Hact. simpl.
  rewrite existsb_app, List.filter_app, length_app. simpl.
  rewrite by_seat_of, fold_by_seat_of by exact Hj.
  destruct (decide (getPlayerIndex pos = j)) as [<- | Hne].
  - rewrite player_at_insert_eq by (rewrite Hwf; lia).
    rewrite (bool_decide_eq_true_2 (getPlayerIndex pos = getPlayerIndex pos))
      by reflexivity.
    rewrite Hacted, Hfolded, orb_true_r. split; [reflexivity|].
    rewrite Hf, Hnf. simpl. destruct (bool_decide (a = Fold)); reflexivity.
  - rewrite player_at_insert_ne by lia.
    rewrite (bool_decide_eq_false_2 (getPlayerIndex pos = j)) by exact Hne.
    simpl. rewrite orb_false_r, Nat.add_0_r. split; assumption.
Qed.

Lemma flags_ok_prepare (s : Engine) :
  flags_ok s -> phase (street s) <> River -> flags_ok (prepareNextStreet s).
Proof.
  intros Hfl Hph j Hj. destruct (Hfl j Hj) as [_ Hf].
  destruct (prepareNextStreet_rest s) as (Hact & _).
  rewrite prepareNextStreet_players, prepareNextStreet_street, Hact
    by exact Hph.
  rewrite player_at_reset_street. simpl. split; [reflexivity | exact Hf].
Qed.

Lemma flags_ok_reachable (s : Engine) : reachable s -> wf s /\ flags_ok s.
Proof.
  apply (inv_reachable flags_ok flags_ok_record).
  - intros s0 i H. exact H.
  - intros s0 b H. exact H.
  - exact flags_ok_prepare.
  - intros hero stackSz j Hj.
    assert (j = 0 \/ j = 1 \/ j = 2 \/ j = 3 \/ j = 4 \/ j = 5) as Hc by lia.
    repeat (destruct Hc as [-> | Hc]; [split; reflexivity|]).
    subst. split; reflexivity.
Qed.

Lemma filter_all {A} (f : A -> bool) (l : list A) :
  Forall (fun x => f x = true) l -> List.filter f l = l.
Proof.
  induction 1 as [|x l Hx _ IH]; simpl; [reflexivity|].
  rewrite Hx, IH. reflexivity.
Qed.

Lemma phase_index_inj (p q : Phase) : phase_index p = phase_index q -> p = q.
Proof. destruct p, q; vm_compute; congruence. Qed.

(** X7. In every reachable state the per-street list is the tail of the
    hand history: [actionsThisStreet] holds exactly the records of [actions]
    whose phase is the current phase, every other record belongs to an
    earlier street, and the history is in street order. *)
Theorem history_grouped_by_street (s : Engine) :
  reachable s ->
  List.filter (fun r => bool_decide (a_phase r = getPhase s)) (actions s)
  = actionsThisStreet (street s) /\
  (exists earlier,
     actions s = earlier ++ actionsThisStreet (street s) /\
     Forall (fun r => phase_index (a_phase r) < phase_index (getPhase s))
            earlier) /\
  ordered (fun r1 r2 => phase_index (a_phase r1) <= phase_index (a_phase r2))
          (actions s).
Proof.
  intros Hr.
  destruct (journal_reachable s Hr)
    as [_ ((old & Hold & Holdlt) & Hats & Hoph & _)].
  unfold getPhase. split; [|split; [exists old; split; assumption | exact Hoph]].
  rewrite Hold, List.filter_app.
  rewrite (filter_none _ old).
  - simpl. apply filter_all.
    eapply Forall_impl; [exact Hats|]. simpl. intros r Hr0.
    apply bool_decide_eq_true_2. exact Hr0.
  - intros r Hin. apply bool_decide_eq_false_2. intros Heq.
    apply list_elem_of_In in Hin.
    pose proof (proj1 (Forall_forall _ _) Holdlt r Hin) as Hlt.
    simpl in Hlt. rewrite Heq in Hlt. lia.
Qed.

Lemma history_grouped_by_street_witness :
  let s := flop_bet_state in
  List.filter (fun r => bool_decide (a_phase r = getPhase s)) (actions s)
  = actionsThisStreet (street s) /\
  (exists earlier,
     actions s = earlier ++ actionsThisStreet (street s) /\
     Forall (fun r => phase_index (a_phase r) < phase_index (getPhase s))
            earlier) /\
  ordered (fun r1 r2 => phase_index (a_phase r1) <= phase_index (a_phase r2))
          (actions s).
Proof.
  intros s. apply (history_grouped_by_street s).
  exact reachable_flop_bet_state.
Defined.

(** X8. In every reachable state [raiseCount] is the number of Bet and
    Raise records of the current street, and [lastAggressorIndex] is the
    seat of the last of them (null when there is none). *)
Theorem raiseCount_counts_bets_and_raises (s : Engine) :
  reachable s ->
  getRaiseCount s
  = Z.of_nat (length (List.filter is_aggressive (actionsThisStreet (street s)))) /\
  lastAggressorIndex (street s)
  = (fun r => getPlayerIndex (a_position r))
      <$> last (List.filter is_aggressive (actionsThisStreet (street s))).
Proof.
  intros Hr.
  destruct (journal_reachable s Hr) as [_ (_ & _ & _ & Hrc & Hla & _)].
  split; assumption.
Qed.

Lemma raiseCount_counts_bets_and_raises_witness :
  let s := flop_bet_state in
  getRaiseCount s
  = Z.of_nat (length (List.filter is_aggressive (actionsThisStreet (street s)))) /\
  lastAggressorIndex (street s)
  = (fun r => getPlayerIndex (a_position r))
      <$> last (List.filter is_aggressive (actionsThisStreet (street s))).
Proof.
  intros s. apply (raiseCount_counts_bets_and_raises s).
  exact reachable_flop_bet_state.
Defined.

(** X9. In every reachable state the pot snapshots of the history never
    decrease from one record to the next, none exceeds the pot, and the
    snapshot of the last record is the pot. *)
Theorem pot_snapshots_nondecreasing (s : Engine) :
  reachable s ->
  ordered (fun r1 r2 => (a_potSize r1 <= a_potSize r2)%Q) (actions s) /\
  Forall (fun r => (a_potSize r <= getPot s)%Q) (actions s) /\
  (forall r, last (actions s) = Some r -> a_potSize r = getPot s).
Proof.
  intros Hr.
  destruct (journal_reachable s Hr)
    as [_ (_ & _ & _ & _ & _ & Hopot & Hle & Hlast)].
  repeat split; assumption.
Qed.

Lemma pot_snapshots_nondecreasing_witness :
  let s := flop_bet_state in
  ordered (fun r1 r2 => (a_potSize r1 <= a_potSize r2)%Q) (actions s) /\
  Forall (fun r => (a_potSize r <= getPot s)%Q) (actions s) /\
  (forall r, last (actions s) = Some r -> a_potSize r = getPot s).
Proof.
  intros s. apply (pot_snapshots_nondecreasing s).
  exact reachable_flop_bet_state.
Defined.

(** X10. In every reachable state a seat's [hasActedThisStreet] flag is set
    exactly when the current street's list holds a record of that seat. *)
Theorem acted_flag_matches_street_records (s : Engine) (pos : Position) :
  reachable s ->
  hasActedThisStreet (player_at (players s) (getPlayerIndex pos))
  = existsb (fun r => bool_decide (a_position r = pos))
            (actionsThisStreet (street s)).
Proof.
  intros Hr. destruct (flags_ok_reachable s Hr) as [_ Hfl].
  destruct (Hfl _ (getPlayerIndex_range pos)) as [Ha _].
  rewrite Ha. unfold by_seat. rewrite position_at_getPlayerIndex.
  reflexivity.
Qed.

Lemma acted_flag_matches_street_records_witness :
  let s := flop_bet_state in
  hasActedThisStreet (player_at (players s) (getPlayerIndex BB))
  = existsb (fun r => bool_decide (a_position r = BB))
            (actionsThisStreet (street s)).
Proof.
  intros s. apply (acted_flag_matches_street_records s BB).
  exact reachable_flop_bet_state.
Defined.

(** X11. In every reachable state a seat is folded exactly when the history
    holds a Fold record of that seat, and no seat has two Fold records. *)
Theorem folded_flag_matches_fold_records (s : Engine) (pos : Position) :
  reachable s ->
  length (List.filter (fun r => bool_decide (performed r = (pos, Fold)))
                      (actions s))
  = (if folded (player_at (players s) (getPlayerIndex pos)) then 1 else 0)%nat.
Proof.
  intros Hr. destruct (flags_ok_reachable s Hr) as [_ Hfl].
  destruct (Hfl _ (getPlayerIndex_range pos)) as [_ Hf].
  rewrite <- Hf. unfold fold_by_seat. rewrite position_at_getPlayerIndex.
  reflexivity.
Qed.

Lemma folded_flag_matches_fold_records_witness :
  let s := flop_bet_state in
  length (List.filter (fun r => bool_decide (performed r = (SB, Fold)))
                      (actions s))
  = (if folded (player_at (players s) (getPlayerIndex SB)) then 1 else 0)%nat.
Proof.
  intros s. apply (folded_flag_matches_fold_records s SB).
  exact reachable_flop_bet_state.
Defined.

(** ** What a call can only move forward *)

Lemma progress_refl (s : Engine) : progress s s.
Proof.
  unfold progress. repeat split; try reflexivity; try lia; lra.
Qed.

Lemma progress_trans (s1 s2 s3 : Engine) :
  progress s1 s2 -> progress s2 s3 -> progress s1 s3.
Proof.
  intros (Ha & Hp & Hpot & Hpl & Hsz & Hh & Hr)
         (Ha' & Hp' & Hpot' & Hpl' & Hsz' & Hh' & Hr').
  unfold progress.
  split; [etrans; eassumption|]. split; [lia|]. split; [lra|].
  split.
  - intros j. destruct (Hpl j), (Hpl' j). split; lra.
  - repeat split; congruence.
Qed.

Lemma progress_same (s s' : Engine) :
  players s' = players s -> street s' = street s -> actions s' = actions s ->
  stackSize s' = stackSize s -> heroPosition s' = heroPosition s ->
  handResult s' = handResult s -> progress s s'.
Proof.
  intros Hp Hs Ha Hsz Hh Hr. unfold progress. rewrite Hp, Hs, Ha.
  repeat split; try assumption; try reflexivity; try lia; lra.
Qed.

Lemma progress_record (pos : Position) (a : ActionType) (sz : option Q)
    (skip : bool) (s s' : Engine) :
  wf s -> recordAction pos a sz skip s = Returned s' -> progress s s'.
Proof.
  intros Hwf H. pose proof (getPlayerIndex_range pos) as Hr.
  destruct (recordAction_recorded _ _ _ _ _ _ Hwf H)
    as (x & bs & (_ & Hx & p' & Hp & _ & _ & _ & _ & Hst & _ & Ht & Hstreet
                  & Hact & Hh & Hsz & _ & _ & Hres) & _).
  assert (Hx0 : (0 <= x)%Q).
  { destruct (moves_chips a); [destruct Hx; lra | subst x; lra]. }
  unfold progress. rewrite Hp, Hstreet, Hact. simpl.
  split; [apply prefix_app_r; reflexivity|]. split; [lia|]. split; [lra|].
  split; [|repeat split; assumption].
  intros j. destruct (decide (getPlayerIndex pos = j)) as [<- | Hne].
  - rewrite player_at_insert_eq by (rewrite Hwf; lia). split; lra.
  - rewrite player_at_insert_ne by lia. split; lra.
Qed.

Lemma progress_prepare (s : Engine) : progress s (prepareNextStreet s).
Proof.
  destruct (prepareNextStreet_rest s) as (Hact & Hh & Hsz & Hres).
  unfold progress. rewrite prepareNextStreet_players, Hact.
  split; [reflexivity|].
  assert (Hst : phase_index (phase (street s))
                <= phase_index (phase (street (prepareNextStreet s))) /\
                pot (street (prepareNextStreet s)) = pot (street s)).
  { destruct (decide (phase (street s) = River)) as [Hr | Hnr].
    - unfold prepareNextStreet. simpl. rewrite Hr. simpl. rewrite Hr.
      split; [lia | reflexivity].
    - rewrite prepareNextStreet_street by exact Hnr. simpl.
      split; [|reflexivity]. pose proof (phase_index_next _ Hnr). lia. }
  destruct Hst as [Hph Hpot]. rewrite Hpot.
  split; [exact Hph|]. split; [lra|].
  split; [|repeat split; assumption].
  intros j. rewrite player_at_reset_street. simpl. split; lra.
Qed.

Lemma progress_run_all (cs : list Command) (s : Engine) :
  wf s -> progress s (run_all cs s).
Proof.
  apply (rel_run_all progress progress_refl progress_trans progress_record).
  - intros s0 i. apply progress_same; reflexivity.
  - intros s0 b. apply progress_same; reflexivity.
  - exact progress_prepare.
Qed.

(** X12. Whatever calls are made on an engine, accepted or rejected, the
    hand history only grows at its end (the earlier history is a prefix of
    the later one) and the street never goes back to an earlier phase. *)
Theorem history_is_append_only (s : Engine) (cs : list Command) :
  wf s ->
  actions s `prefix_of` actions (run_all cs s) /\
  phase_index (getPhase s) <= phase_index (getPhase (run_all cs s)).
Proof.
  intros Hwf. destruct (progress_run_all cs s Hwf) as (Ha & Hp & _).
  split; assumption.
Qed.

Lemma history_is_append_only_witness :
  let s := new_engine (Some BTN) 100 in
  let cs := [PreflopAction BTN Raise (Some 3%Q); PreflopAction BB Call None;
             ConfirmBoard; PostflopAction BB Bet (Some 4%Q)] in
  actions s `prefix_of` actions (run_all cs s) /\
  phase_index (getPhase s) <= phase_index (getPhase (run_all cs s)).
Proof.
  intros s cs. apply (history_is_append_only s cs). reflexivity.
Defined.

(** X13. Whatever calls are made, chips move one way: no seat's stack
    grows, no seat's hand-total contribution shrinks, and the pot never
    shrinks. *)
Theorem chips_move_one_way (s : Engine) (cs : list Command) (j : Z) :
  wf s ->
  (stack (player_at (players (run_all cs s)) j)
   <= stack (player_at (players s) j))%Q /\
  (totalContributed (player_at (players s) j)
   <= totalContributed (player_at (players (run_all cs s)) j))%Q /\
  (getPot s <= getPot (run_all cs s))%Q.
Proof.
  intros Hwf. destruct (progress_run_all cs s Hwf) as (_ & _ & Hpot & Hpl & _).
  destruct (Hpl j). repeat split; assumption.
Qed.

Lemma chips_move_one_way_witness :
  let s := new_engine (Some BTN) 100 in
  let cs := [PreflopAction BTN Raise (Some 3%Q); PreflopAction BB Call None;
             ConfirmBoard; PostflopAction BB Bet (Some 4%Q)] in
  (stack (player_at (players (run_all cs s)) 1)
   <= stack (player_at (players s) 1))%Q /\
  (totalContributed (player_at (players s) 1)
   <= totalContributed (player_at (players (run_all cs s)) 1))%Q /\
  (getPot s <= getPot (run_all cs s))%Q.
Proof.
  intros s cs. apply (chips_move_one_way s cs 1). reflexivity.
Defined.

(** X14. No action call and no board confirmation changes the starting
    stack, the hero position or the stored hand result. *)
Theorem calls_keep_hand_parameters (s : Engine) (cs : list Command) :
  wf s ->
  stackSize (run_all cs s) = stackSize s /\
  heroPosition (run_all cs s) = heroPosition s /\
  handResult (run_all cs s) = handResult s.
Proof.
  intros Hwf.
  destruct (progress_run_all cs s Hwf) as (_ & _ & _ & _ & Hsz & Hh & Hr).
  repeat split; assumption.
Qed.

Lemma calls_keep_hand_parameters_witness :
  let s := new_engine (Some BTN) 100 in
  let cs := [PreflopAction BTN Raise (Some 3%Q); PreflopAction BB Call None;
             ConfirmBoard; PostflopAction BB Bet (Some 4%Q)] in
  stackSize (run_all cs s) = stackSize s /\
  heroPosition (run_all cs s) = heroPosition s /\
  handResult (run_all cs s) = handResult s.
Proof.
  intros s cs. apply (calls_keep_hand_parameters s cs). reflexivity.
Defined.

(** ** Folds end a hand for good *)

Lemma active_count_le (l l' : list PlayerState) :
  Forall2 (fun p p' => folded p = true -> folded p' = true) l l' ->
  (length (List.filter not_folded l') <= length (List.filter not_folded l))%nat.
Proof.
  induction 1 as [|p p' l l' Hp _ IH]; simpl; [lia|].
  assert (Hnf : forall q, not_folded q = negb (folded q)) by reflexivity.
  rewrite (Hnf p), (Hnf p').
  destruct (folded p) eqn:Ef.
  - rewrite (Hp eq_refl). simpl. exact IH.
  - destruct (folded p'); simpl; lia.
Qed.

Lemma keeps_active_count (s s' : Engine) :
  keeps s s' -> getActivePlayerCount s' <= getActivePlayerCount s.
Proof.
  intros [Hlen Hf]. unfold getActivePlayerCount.
  apply inj_le. apply active_count_le.
  apply Forall2_same_length_lookup_2; [symmetry in Hlen; exact Hlen|].
  intros n p p' Hl Hl' Hfp.
  specialize (Hf (Z.of_nat n)). unfold player_at in Hf.
  replace (Z.of_nat n <? 0) with false in Hf
    by (symmetry; apply Z.ltb_ge; lia).
  rewrite Nat2Z.id, Hl, Hl' in Hf. exact (Hf Hfp).
Qed.

(** X15. The number of non-folded seats never grows, whatever calls are
    made; so once one seat or none is left in the hand, [isHandComplete()]
    stays true after every later call. *)
Theorem fold_completion_is_permanent (s : Engine) (cs : list Command) :
  wf s ->
  getActivePlayerCount (run_all cs s) <= getActivePlayerCount s /\
  (getActivePlayerCount s <= 1 -> isHandComplete (run_all cs s) = true).
Proof.
  intros Hwf.
  pose proof (keeps_active_count _ _ (keeps_run_all cs s Hwf)) as Hle.
  split; [exact Hle|].
  intros H1. unfold isHandComplete.
  replace (getActivePlayerCount (run_all cs s) <=? 1) with true
    by (symmetry; apply Z.leb_le; lia).
  reflexivity.
Qed.

Lemma fold_completion_is_permanent_witness :
  let s := run_all [PreflopAction SB Fold None] (new_engine None 100) in
  let cs := [PreflopAction BB Raise (Some 5%Q); ConfirmBoard] in
  getActivePlayerCount s <= 1 /\
  getActivePlayerCount (run_all cs s) <= getActivePlayerCount s /\
  isHandComplete (run_all cs s) = true.
Proof.
  intros s cs.
  assert (H1 : getActivePlayerCount s <= 1) by (vm_compute; discriminate).
  destruct (fold_completion_is_permanent s cs) as [Hle Hdone].
  - reflexivity.
  - split; [exact H1|]. split; [exact Hle | exact (Hdone H1)].
Defined.

(** ** The scheduler and the board gate *)

Section SchedulerInvariant.
Variable P : Engine -> Prop.
Hypothesis P_record :
  forall pos a sz skip s s',
    wf s -> P s -> recordAction pos a sz skip s = Returned s' -> P s'.
Hypothesis P_seat :
  forall s i, P s -> -1 <= i < 6 -> P (set_currentActorIndex s i).
Hypothesis P_gate :
  forall s, P s -> phase (street s) <> River ->
            P (prepareNextStreet (set_waitingForBoard s true)).
Hypothesis P_confirm : forall s, P s -> P (confirmBoard s).

Lemma sched_advanceToNextActor (s : Engine) : P s -> P (advanceToNextActor s).
Proof.
  intros HP. unfold advanceToNextActor.
  destruct (getActivePlayerCount s <=? 1); [apply P_seat; [exact HP | lia]|].
  destruct (isStreetComplete s _).
  - destruct (bool_decide (phase (street s) = River)) eqn:Eph;
      [apply P_seat; [exact HP | lia]|].
    apply bool_decide_eq_false in Eph. apply P_gate; assumption.
  - destruct (_ =? -1); [apply P_seat; [exact HP | lia]|].
    apply P_seat; [exact HP|].
    destruct (getNextActivePlayerIndex_range s (currentActorIndex s))
      as [-> | [Hr _]]; lia.
Qed.

Lemma sched_run (c : Command) (s : Engine) :
  wf s -> P s -> P (state_after s (run c s)).
Proof.
  intros Hwf HP. destruct c as [pos a sz | pos a sz |]; simpl.
  - pose proof (getPlayerIndex_range pos) as Hr.
    unfold addPreflopAction.
    destruct (negb (bool_decide (phase (street s) = Preflop))); [exact HP|].
    assert (H1 : P (state_after s
              (if negb (getPlayerIndex pos =? currentActorIndex s)
               then autoFoldBetween (currentActorIndex s)
                      (getPlayerIndex pos) s
               else Returned s)) /\
            wf (state_after s
              (if negb (getPlayerIndex pos =? currentActorIndex s)
               then autoFoldBetween (currentActorIndex s)
                      (getPlayerIndex pos) s
               else Returned s))).
    { destruct (negb _); [|split; assumption]. split.
      - apply (inv_autoFoldLoop P P_record); assumption.
      - exact (keeps_wf _ _ (keeps_autoFoldLoop _ _ _ _ _ Hwf) Hwf). }
    destruct (if negb (getPlayerIndex pos =? currentActorIndex s)
              then autoFoldBetween (currentActorIndex s) (getPlayerIndex pos) s
              else Returned s) as [s1|e s1|]; simpl in *;
      [| exact (proj1 H1) | exact HP].
    destruct H1 as [HP1 Hwf1].
    destruct (recordAction pos a sz false
                (set_currentActorIndex s1 (getPlayerIndex pos)))
      as [s3|e s3|] eqn:Er; simpl.
    + apply sched_advanceToNextActor.
      refine (P_record _ _ _ _ _ _ _ _ Er); [exact Hwf1|].
      apply P_seat; [exact HP1 | lia].
    + apply recordAction_Threw_unchanged in Er. subst.
      apply P_seat; [exact HP1 | lia].
    + exact HP.
  - unfold addPostflopAction.
    destruct (bool_decide (phase (street s) = Preflop)); [exact HP|].
    destruct (negb (getPlayerIndex pos =? currentActorIndex s)); [exact HP|].
    destruct (recordAction pos a sz false s) as [s1|e s1|] eqn:Er; simpl.
    + apply sched_advanceToNextActor. exact (P_record _ _ _ _ _ _ Hwf HP Er).
    + apply recordAction_Threw_unchanged in Er. subst. exact HP.
    + exact HP.
  - apply P_confirm. exact HP.
Qed.

Lemma sched_reachable :
  (forall hero stackSz, P (new_engine hero stackSz)) ->
  forall s, reachable s -> wf s /\ P s.
Proof.
  intros Hnew s Hr. induction Hr as [hero stackSz | s c Hr [Hwf HP]].
  - split; [apply new_engine_wf | apply Hnew].
  - split.
    + exact (keeps_wf _ _ (keeps_run c s Hwf) Hwf).
    + apply sched_run; assumption.
Qed.
End SchedulerInvariant.

Lemma setPostflopFirstActor_actor_range (s : Engine) :
  -1 <= currentActorIndex (setPostflopFirstActor s) < 6.
Proof.
  unfold setPostflopFirstActor.
  destruct (length _ =? 0)%nat.
  - destruct (negb _); simpl; lia.
  - destruct (can_act _);
      [simpl; pose proof (getPlayerIndex_range SB); lia|].
    destruct (getNextActivePlayerIndex_range s (getPlayerIndex SB))
      as [E | [Hr _]].
    + rewrite E. simpl. lia.
    + destruct (_ =? -1); simpl; lia.
Qed.

Lemma gate_ok_reachable (s : Engine) : reachable s -> wf s /\ gate_ok s.
Proof.
  apply (sched_reachable gate_ok).
  - intros pos a sz skip s0 s' Hwf [Hg Hc] H.
    destruct (recordAction_recorded _ _ _ _ _ _ Hwf H)
      as (x & bs & (_ & _ & p' & _ & _ & _ & _ & _ & _ & _ & _ & Hstreet
                    & _ & _ & _ & Hcur & Hw & _) & _).
    unfold gate_ok. rewrite Hstreet, Hcur, Hw. simpl. split; assumption.
  - intros s0 i [Hg Hc] Hi. split; [exact Hg | exact Hi].
  - intros s0 [Hg Hc] Hph. split.
    + intros _.
      rewrite prepareNextStreet_street by exact Hph. simpl.
      destruct (phase (street s0)); simpl; congruence.
    + unfold prepareNextStreet. simpl.
      destruct (_ >=? _); [simpl; lia|].
      apply setPostflopFirstActor_actor_range.
  - intros s0 [Hg Hc]. unfold confirmBoard, gate_ok.
    repeat (match goal with
            | |- context [if ?c then _ else _] => destruct c
            end); simpl; split; try assumption; try lia; try discriminate.
  - intros hero stackSz. split; [discriminate | simpl; unfold PREFLOP_START_INDEX; lia].
Qed.

(** X16. In every reachable state the board gate is closed only after
    Preflop and the actor index is -1 or one of the six seats.  So while the
    engine waits for the board, [getCurrentActor()] is null and every
    [addPreflopAction] call is rejected with the state unchanged. *)
Theorem gate_closed_only_after_preflop (s : Engine) :
  reachable s ->
  -1 <= currentActorIndex s < 6 /\
  (isWaitingForBoard s = true ->
     getPhase s <> Preflop /\
     getCurrentActor s = None /\
     forall pos a sz, addPreflopAction pos a sz s = Threw ErrPreflopOnly s).
Proof.
  intros Hr. destruct (gate_ok_reachable s Hr) as [_ [Hg Hc]].
  split; [exact Hc|].
  unfold isWaitingForBoard, getPhase. intros Hw. specialize (Hg Hw).
  split; [exact Hg|]. split.
  - unfold getCurrentActor. rewrite Hw, orb_true_r. reflexivity.
  - intros pos a sz. unfold addPreflopAction.
    rewrite (bool_decide_eq_false_2 (phase (street s) = Preflop)) by exact Hg.
    reflexivity.
Qed.

Lemma gate_closed_only_after_preflop_witness :
  let s := run_all [PreflopAction BTN Raise (Some 3%Q);
                    PreflopAction BB Call None] (new_engine None 100) in
  isWaitingForBoard s = true /\
  -1 <= currentActorIndex s < 6 /\
  getPhase s <> Preflop /\
  getCurrentActor s = None /\
  forall pos a sz, addPreflopAction pos a sz s = Threw ErrPreflopOnly s.
Proof.
  intros s.
  assert (Hw : isWaitingForBoard s = true) by (vm_compute; reflexivity).
  destruct (gate_closed_only_after_preflop s) as [Hc Hrest].
  - apply reachable_run_all. apply reachable_new.
  - destruct (Hrest Hw) as (Hph & Hnone & Hrej).
    split; [exact Hw|]. split; [exact Hc|]. split; [exact Hph|].
    split; [exact Hnone | exact Hrej].
Defined.

(** ** The current actor after an accepted action *)

Lemma getCurrentActor_waiting (s : Engine) :
  waitingForBoard s = true -> getCurrentActor s = None.
Proof.
  intros Hw. unfold getCurrentActor. rewrite Hw, orb_true_r. reflexivity.
Qed.

Lemma getCurrentActor_Some (s : Engine) (pos : Position) :
  getCurrentActor s = Some pos -> getPlayerIndex pos = currentActorIndex s.
Proof.
  unfold getCurrentActor.
  destruct (isHandComplete s || waitingForBoard s); [discriminate|].
  destruct (currentActorIndex s <? 0) eqn:E; [discriminate|].
  apply Z.ltb_ge in E. intros Hl.
  assert (Hn : (Z.to_nat (currentActorIndex s) < 6)%nat).
  { apply lookup_lt_Some in Hl. exact Hl. }
  assert (Hc : currentActorIndex s = 0 \/ currentActorIndex s = 1 \/
               currentActorIndex s = 2 \/ currentActorIndex s = 3 \/
               currentActorIndex s = 4 \/ currentActorIndex s = 5) by lia.
  repeat (destruct Hc as [Hc | Hc];
          [rewrite Hc in *; injection Hl as <-; reflexivity|]).
  rewrite Hc in *. injection Hl as <-. reflexivity.
Qed.

Lemma getCurrentActor_minus_one (s : Engine) :
  getCurrentActor (set_currentActorIndex s (-1)) = None.
Proof.
  unfold getCurrentActor.
  destruct (isHandComplete _ || waitingForBoard _); reflexivity.
Qed.

Lemma advanceToNextActor_actor_can_act (s : Engine) (pos : Position) :
  getCurrentActor (advanceToNextActor s) = Some pos ->
  can_act (player_at (players (advanceToNextActor s)) (getPlayerIndex pos))
  = true.
Proof.
  unfold advanceToNextActor.
  destruct (getActivePlayerCount s <=? 1);
    [rewrite getCurrentActor_minus_one; discriminate|].
  destruct (isStreetComplete s _).
  - destruct (bool_decide (phase (street s) = River));
      [rewrite getCurrentActor_minus_one; discriminate|].
    rewrite getCurrentActor_waiting; [discriminate|].
    apply prepareNextStreet_waiting. reflexivity.
  - destruct (getNextActivePlayerIndex_range s (currentActorIndex s))
      as [E | [Hr Hcan]].
    + rewrite E. simpl. rewrite getCurrentActor_minus_one. discriminate.
    + destruct (_ =? -1); [rewrite getCurrentActor_minus_one; discriminate|].
      intros Hcur. apply getCurrentActor_Some in Hcur. simpl in Hcur.
      simpl. rewrite Hcur. exact Hcan.
Qed.

Lemma can_act_has_actions (s : Engine) (pos : Position) :
  can_act (player_at (players s) (getPlayerIndex pos)) = true ->
  getAvailableActions s pos <> [].
Proof.
  unfold can_act, getAvailableActions. intros H.
  apply andb_true_iff in H as [Hnf Hst]. apply negb_true_iff in Hnf.
  rewrite Hnf. apply num_lt_spec in Hst.
  replace (num_lt (stack (player_at (players s) (getPlayerIndex pos))) eps)
    with false by (symmetry; apply num_lt_false; lra).
  destruct (canCheck s pos); [|discriminate].
  destruct (_ && _); discriminate.
Qed.

Lemma accepted_action_ends_in_advance (pos : Position) (a : ActionType)
    (sz : option Q) (s s' : Engine) :
  addPreflopAction pos a sz s = Returned s' \/
  addPostflopAction pos a sz s = Returned s' ->
  exists s3, s' = advanceToNextActor s3.
Proof.
  intros [H | H].
  - unfold addPreflopAction in H.
    destruct (negb (bool_decide (phase (street s) = Preflop)));
      [discriminate|].
    destruct (if negb (getPlayerIndex pos =? currentActorIndex s)
              then autoFoldBetween (currentActorIndex s) (getPlayerIndex pos) s
              else Returned s) as [s1|e s1|]; simpl in H; try discriminate.
    destruct (recordAction pos a sz false
                (set_currentActorIndex s1 (getPlayerIndex pos)))
      as [s3|e s3|]; simpl in H; try discriminate.
    injection H as <-. exists s3. reflexivity.
  - unfold addPostflopAction in H.
    destruct (bool_decide (phase (street s) = Preflop)); [discriminate|].
    destruct (negb (getPlayerIndex pos =? currentActorIndex s));
      [discriminate|].
    destruct (recordAction pos a sz false s) as [s3|e s3|];
      simpl in H; try discriminate.
    injection H as <-. exists s3. reflexivity.
Qed.

(** X17. After every accepted [addPreflopAction] or [addPostflopAction],
    the seat that [getCurrentActor()] reports, if any, is able to act: it
    is not folded, has more than 0.01 behind, and [getAvailableActions]
    offers it at least one action. *)
Theorem current_actor_can_act (pos : Position) (a : ActionType)
    (sz : option Q) (s s' : Engine) (q : Position) :
  addPreflopAction pos a sz s = Returned s' \/
  addPostflopAction pos a sz s = Returned s' ->
  getCurrentActor s' = Some q ->
  folded (player_at (players s') (getPlayerIndex q)) = false /\
  (eps < stack (player_at (players s') (getPlayerIndex q)))%Q /\
  getAvailableActions s' q <> [].
Proof.
  intros H Hq. destruct (accepted_action_ends_in_advance _ _ _ _ _ H)
    as [s3 ->].
  pose proof (advanceToNextActor_actor_can_act s3 q Hq) as Hcan.
  split; [|split; [|exact (can_act_has_actions _ _ Hcan)]].
  - unfold can_act in Hcan. apply andb_true_iff in Hcan as [Hnf _].
    apply negb_true_iff in Hnf. exact Hnf.
  - unfold can_act in Hcan. apply andb_true_iff in Hcan as [_ Hst].
    apply num_lt_spec. exact Hst.
Qed.

Lemma current_actor_can_act_witness :
  let s := new_engine (Some BTN) 100 in
  let s' := state_after s (addPreflopAction BTN Raise (Some 3%Q) s) in
  getCurrentActor s' = Some SB /\
  folded (player_at (players s') (getPlayerIndex SB)) = false /\
  (eps < stack (player_at (players s') (getPlayerIndex SB)))%Q /\
  getAvailableActions s' SB <> [].
Proof.
  intros s s'.
  assert (Hq : getCurrentActor s' = Some SB) by (vm_compute; reflexivity).
  split; [exact Hq|].
  apply (current_actor_can_act BTN Raise (Some 3%Q) s s' SB).
  - left. vm_compute. reflexivity.
  - exact Hq.
Defined.

(** ** Offered actions are accepted *)

Lemma Math_min_pos (a b : Q) : (0 < a)%Q -> (0 < b)%Q -> (0 < Math_min a b)%Q.
Proof. intros Ha Hb. unfold Math_min. destruct (num_le a b); assumption. Qed.

Lemma offered_action_recorded (s : Engine) (pos : Position) (a : ActionType)
    (size : Q) :
  In a (getAvailableActions s pos) ->
  (0 < size)%Q ->
  (contributed (player_at (players s) (getPlayerIndex pos)) < size)%Q ->
  exists s', recordAction pos a (Some size) false s = Returned s'.
Proof.
  unfold getAvailableActions, canCheck, recordAction.
  set (p := player_at (players s) (getPlayerIndex pos)).
  intros Hin Hsize Hbig.
  destruct (folded p) eqn:Ef; [destruct Hin|].
  destruct (num_lt (stack p) eps) eqn:Est; [destruct Hin|].
  apply num_lt_false in Est.
  assert (Hstack : (0 < stack p)%Q) by (unfold eps in Est; lra).
  assert (Hraise : num_le (Math_min size (stack p + contributed p)
                           - contributed p) 0 = false).
  { apply num_le_false. unfold Math_min.
    destruct (num_le size (stack p + contributed p)); lra. }
  assert (Hsz : num_le size 0 = false) by (apply num_le_false; exact Hsize).
  unfold canCheck. fold p. rewrite Ef.
  destruct (num_le (currentBet (street s)) (contributed p)) eqn:Ecan.
  - apply num_le_spec in Ecan.
    assert (Hchk : num_lt (contributed p) (currentBet (street s)) = false)
      by (apply num_lt_false; exact Ecan).
    destruct (negb (bool_decide (phase (street s) = Preflop))
              && num_eq (currentBet (street s)) 0) eqn:Ebet.
    + apply andb_true_iff in Ebet as [Hph Hz]. apply num_eq_spec in Hz.
      destruct Hin as [<- | [<- | []]]; simpl.
      * rewrite Hchk. eexists. reflexivity.
      * replace (num_lt 0 (currentBet (street s))) with false
          by (symmetry; apply num_lt_false; lra).
        rewrite Hsz.
        replace (num_le (Math_min size (stack p)) 0) with false
          by (symmetry; apply num_le_false; apply Math_min_pos; assumption).
        eexists. reflexivity.
    + destruct Hin as [<- | [<- | []]]; simpl.
      * rewrite Hchk. eexists. reflexivity.
      * rewrite Hsz, Hraise. eexists. reflexivity.
  - apply num_le_false in Ecan.
    destruct Hin as [<- | [<- | [<- | []]]]; simpl.
    + eexists. reflexivity.
    + replace (num_le (currentBet (street s) - contributed p) 0) with false
        by (symmetry; apply num_le_false; lra).
      replace (num_le (Math_min (currentBet (street s) - contributed p)
                                (stack p)) 0) with false
        by (symmetry; apply num_le_false; apply Math_min_pos; lra).
      eexists. reflexivity.
    + rewrite Hsz, Hraise. eexists. reflexivity.
Qed.

(** X18. Whatever [getAvailableActions] offers the current actor is
    accepted by the action call of the current phase, when it is given a
    positive size above the seat's current-street contribution (the size is
    ignored for Fold, Check and Call). *)
Theorem offered_actions_are_accepted (s : Engine) (pos : Position)
    (a : ActionType) (size : Q) :
  getCurrentActor s = Some pos ->
  In a (getAvailableActions s pos) ->
  (0 < size)%Q ->
  (contributed (player_at (players s) (getPlayerIndex pos)) < size)%Q ->
  exists s',
    (if bool_decide (getPhase s = Preflop)
     then addPreflopAction pos a (Some size) s
     else addPostflopAction pos a (Some size) s) = Returned s'.
Proof.
  intros Hcur Hin Hsize Hbig.
  apply getCurrentActor_Some in Hcur.
  destruct (offered_action_recorded s pos a size Hin Hsize Hbig) as [s3 Hrec].
  unfold getPhase, addPreflopAction, addPostflopAction.
  destruct (bool_decide (phase (street s) = Preflop)); cbn [negb].
  - rewrite Hcur, Z.eqb_refl. cbn [negb bind].
    rewrite set_currentActorIndex_same, Hrec. cbn [bind].
    eexists. reflexivity.
  - rewrite Hcur, Z.eqb_refl. cbn [negb]. rewrite Hrec. cbn [bind].
    eexists. reflexivity.
Qed.

Lemma offered_actions_are_accepted_witness :
  let s := flop_bet_state in
  getCurrentActor s = Some BTN /\
  getAvailableActions s BTN = [Fold; Call; Raise] /\
  exists s', addPostflopAction BTN Raise (Some 12%Q) s = Returned s'.
Proof.
  intros s.
  assert (Hcur : getCurrentActor s = Some BTN) by (vm_compute; reflexivity).
  assert (Hav : getAvailableActions s BTN = [Fold; Call; Raise])
    by (vm_compute; reflexivity).
  split; [exact Hcur|]. split; [exact Hav|].
  destruct (offered_actions_are_accepted s BTN Raise 12%Q) as [s' Hs'].
  - exact Hcur.
  - rewrite Hav. right. right. left. reflexivity.
  - reflexivity.
  - vm_compute. reflexivity.
  - exists s'.
    replace (bool_decide (getPhase s = Preflop)) with false in Hs'
      by (vm_compute; reflexivity).
    exact Hs'.
Defined.

(** ** Board confirmation *)

Lemma confirmBoard_fixed_or_open (s : Engine) :
  confirmBoard s = s \/ waitingForBoard (confirmBoard s) = false.
Proof.
  unfold confirmBoard.
  destruct (waitingForBoard s) eqn:Hw; simpl; [|left; reflexivity].
  destruct (bool_decide (phase (street s) = River)).
  - destruct (length _ =? 0)%nat; right; reflexivity.
  - destruct (0 <? length _)%nat; [right | left]; reflexivity.
Qed.

(** X19. [confirmBoard()] is idempotent: a second call right after the
    first changes nothing.  It never touches the players, the street (so the
    phase stays as it is) or the history, and [forceAdvanceToNextStreet()]
    does the same as [confirmBoard()]. *)
Theorem confirmBoard_idempotent (s : Engine) :
  confirmBoard (confirmBoard s) = confirmBoard s /\
  forceAdvanceToNextStreet s = confirmBoard s /\
  players (confirmBoard s) = players s /\
  street (confirmBoard s) = street s /\
  actions (confirmBoard s) = actions s.
Proof.
  split.
  - destruct (confirmBoard_fixed_or_open s) as [H | H].
    + rewrite !H. reflexivity.
    + unfold confirmBoard at 1. rewrite H. reflexivity.
  - split.
    + unfold forceAdvanceToNextStreet, confirmBoard.
      destruct (waitingForBoard s); reflexivity.
    + split; [apply confirmBoard_players|].
      split; [apply confirmBoard_street|].
      unfold confirmBoard.
      repeat (match goal with
              | |- context [if ?c then _ else _] => destruct c
              end); reflexivity.
Qed.

(** ** Completion type and the oracle *)





(** ** The result gate *)

(** X21. [setHandResult] is rejected exactly when [isHandComplete()] is
    false.  When it is accepted it changes only the stored result:
    [getHandResult()] then returns that result, [isReadyForResult()] is
    false, the hand is still complete, and a later [setHandResult]
    replaces the stored result. *)
Theorem result_gate (s : Engine) (r r2 : HandResult) :
  (isHandComplete s = false -> setHandResult r s = None) /\
  (isHandComplete s = true ->
     exists s',
       setHandResult r s = Some s' /\
       getHandResult s' = Some r /\
       isReadyForResult s' = false /\
       isHandComplete s' = true /\
       players s' = players s /\ street s' = street s /\
       actions s' = actions s /\
       exists s'', setHandResult r2 s' = Some s'' /\
                   getHandResult s'' = Some r2) /\
  (isReadyForResult s = true -> isHandComplete s = true /\
                               getHandResult s = None).
Proof.
  unfold setHandResult, isReadyForResult, getHandResult.
  split; [intros H; rewrite H; reflexivity|]. split.
  - intros H. rewrite H. simpl.
    exists (set_handResult s (Some r)).
    assert (Hc : isHandComplete (set_handResult s (Some r)) = true)
      by exact H.
    split; [reflexivity|]. split; [reflexivity|].
    split; [rewrite Hc; reflexivity|].
    split; [exact Hc|].
    split; [reflexivity|]. split; [reflexivity|]. split; [reflexivity|].
    rewrite Hc. simpl. eexists. split; reflexivity.
  - intros H. apply andb_true_iff in H as [Hc Hn].
    apply bool_decide_eq_true in Hn. split; assumption.
Qed.

Lemma result_gate_witness :
  let s := run_all [PreflopAction SB Fold None] (new_engine None 100) in
  let r := mkResult BB false 1.5%Q in
  isReadyForResult s = true /\
  exists s', setHandResult r s = Some s' /\ getHandResult s' = Some r /\
             isReadyForResult s' = false.
Proof.
  intros s r.
  assert (Hready : isReadyForResult s = true) by (vm_compute; reflexivity).
  split; [exact Hready|].
  destruct (result_gate s r r) as (_ & Hok & Hrd).
  destruct (Hok (proj1 (Hrd Hready))) as (s' & H1 & H2 & H3 & _).
  exists s'. split; [exact H1|]. split; [exact H2 | exact H3].
Defined.

(** ** Check or call *)

(** X22. A folded seat can neither check nor needs to call; for a seat in
    the hand exactly one of [canCheck] and [needsToCall] holds.
    [getAvailableActions] offers Check only to seats that can check and Call
    and Fold only to seats that need to call. *)
Theorem check_or_call (s : Engine) (pos : Position) :
  (folded (player_at (players s) (getPlayerIndex pos)) = true ->
     canCheck s pos = false /\ needsToCall s pos = false) /\
  (folded (player_at (players s) (getPlayerIndex pos)) = false ->
     needsToCall s pos = negb (canCheck s pos)) /\
  (In Check (getAvailableActions s pos) -> canCheck s pos = true) /\
  (In Call (getAvailableActions s pos) -> needsToCall s pos = true) /\
  (In Fold (getAvailableActions s pos) -> needsToCall s pos = true).
Proof.
  unfold canCheck, needsToCall, getAvailableActions, canCheck, num_lt, num_le.
  set (p := player_at (players s) (getPlayerIndex pos)).
  destruct (folded p); simpl.
  - repeat split; try reflexivity; try discriminate; intros [].
  - split; [discriminate|]. split; [reflexivity|].
    destruct (negb (Qle_bool eps (stack p)));
      [repeat split; intros []|].
    destruct (Qle_bool (currentBet (street s)) (contributed p)); simpl.
    + destruct (_ && _); repeat split; try reflexivity;
        intros [H | [H | []]]; discriminate.
    + repeat split; try reflexivity.
      intros [H | [H | [H | []]]]; discriminate.
Qed.

Lemma check_or_call_witness :
  let s := flop_bet_state in
  In Call (getAvailableActions s BTN) /\ needsToCall s BTN = true.
Proof.
  intros s.
  assert (Hin : In Call (getAvailableActions s BTN))
    by (vm_compute; right; left; reflexivity).
  split; [exact Hin|].
  exact (proj1 (proj2 (proj2 (proj2 (check_or_call s BTN)))) Hin).
Defined.

(** ** The skip, for any named seat *)

Lemma autoFoldLoop_only_folds (endIndex : Z) :
  forall fuel idx processed s,
    wf s ->
    autoFoldLoop fuel idx endIndex processed s = OutOfFuel \/
    exists l,
      Forall (fun j => 0 <= j < 6) l /\
      autoFoldLoop fuel idx endIndex processed s
      = Returned (foldl (fun st j => autoFolded j st) s l).
Proof.
  induction fuel as [|fuel IH]; intros idx processed s Hwf; simpl.
  - destruct (idx =? endIndex); [right; exists []; split; [constructor|]
                                 | left]; reflexivity.
  - destruct (idx =? endIndex);
      [right; exists []; split; [constructor | reflexivity]|].
    destruct (bool_decide (idx ∈ processed));
      [right; exists []; split; [constructor | reflexivity]|].
    destruct ((idx <? 0) || (idx >=? Z.of_nat (length (players s)))) eqn:Er;
      [right; exists []; split; [constructor | reflexivity]|].
    apply orb_false_iff in Er as [Hlo Hhi]. rewrite Hwf in Hhi.
    apply Z.ltb_ge in Hlo. rewrite Z.geb_leb in Hhi. apply Z.leb_gt in Hhi.
    assert (Hi : 0 <= idx < 6) by lia.
    destruct (folded (player_at (players s) idx)) eqn:Ef; simpl.
    + destruct ((getNextActivePlayerIndex s idx =? -1)
                || (getNextActivePlayerIndex s idx =? idx));
        [right; exists []; split; [constructor | reflexivity]|].
      apply IH. exact Hwf.
    + rewrite (recordAction_autoFold idx s Hi Ef). simpl.
      destruct ((getNextActivePlayerIndex (autoFolded idx s) idx =? -1)
                || (getNextActivePlayerIndex (autoFolded idx s) idx =? idx)).
      * right. exists [idx]. split; [repeat constructor; lia | reflexivity].
      * destruct (IH (getNextActivePlayerIndex (autoFolded idx s) idx)
                     (idx :: processed) (autoFolded idx s)
                     (autoFolded_wf idx s Hwf Hi)) as [Hout | (l & Hl & Heq)].
        -- left. exact Hout.
        -- right. exists (idx :: l). split; [constructor; assumption|].
           rewrite Heq. reflexivity.
Qed.

Lemma autoFolded_street (i : Z) (s : Engine) :
  street (autoFolded i s)
  = push_street_action (add_to_pot (street s) 0)
      (mkAction (position_at i) Fold None (pot (street s) + 0)%Q
                (phase (street s))) /\
  currentActorIndex (autoFolded i s) = currentActorIndex s /\
  waitingForBoard (autoFolded i s) = waitingForBoard s.
Proof. repeat split; reflexivity. Qed.

Lemma foldl_autoFolded_street (l : list Z) :
  forall s,
    let s1 := foldl (fun st j => autoFolded j st) s l in
    phase (street s1) = phase (street s) /\
    (pot (street s1) == pot (street s))%Q /\
    streetStartingPot (street s1) = streetStartingPot (street s) /\
    currentBet (street s1) = currentBet (street s) /\
    lastAggressorIndex (street s1) = lastAggressorIndex (street s) /\
    raiseCount (street s1) = raiseCount (street s) /\
    currentActorIndex s1 = currentActorIndex s /\
    waitingForBoard s1 = waitingForBoard s.
Proof.
  induction l as [|x l IH]; intros s; simpl.
  - repeat split; reflexivity.
  - destruct (IH (autoFolded x s))
      as (Hph & Hpot & Hssp & Hbet & Hla & Hrc & Hcur & Hw).
    destruct (autoFolded_street x s) as (Hst & Hcur0 & Hw0).
    rewrite Hph, Hpot, Hssp, Hbet, Hla, Hrc, Hcur, Hw, Hst, Hcur0, Hw0.
    simpl. repeat split; try reflexivity. ring.
Qed.

(** X23. The preflop skip never throws and never runs out of its loop
    guard, whatever seat is named and wherever it starts: it returns the
    state with some seats folded and nothing else moved.  The history grows
    by one Fold record per seat it folded; stacks, contributions, pot, bet
    to match, raise count, last aggressor, phase, actor index and board
    gate are as before; seats folded before stay folded. *)
Theorem skip_only_folds (s : Engine) (startIndex endIndex : Z) :
  wf s ->
  exists (l : list Z) (s1 : Engine),
    autoFoldBetween startIndex endIndex s = Returned s1 /\
    map performed (actions s1)
    = map performed (actions s) ++ map (fun j => (position_at j, Fold)) l /\
    (forall j, folded (player_at (players s1) j) = true <->
               folded (player_at (players s) j) = true \/ j ∈ l) /\
    (forall j, stack (player_at (players s1) j)
               = stack (player_at (players s) j) /\
               contributed (player_at (players s1) j)
               = contributed (player_at (players s) j)) /\
    (pot (street s1) == pot (street s))%Q /\
    currentBet (street s1) = currentBet (street s) /\
    raiseCount (street s1) = raiseCount (street s) /\
    lastAggressorIndex (street s1) = lastAggressorIndex (street s) /\
    phase (street s1) = phase (street s) /\
    currentActorIndex s1 = currentActorIndex s /\
    waitingForBoard s1 = waitingForBoard s.
Proof.
  intros Hwf.
  destruct (autoFoldLoop_only_folds endIndex 8 startIndex [] s Hwf)
    as [Hout | (l & Hl & Heq)].
  { exfalso. exact (autoFoldBetween_terminates _ _ _ Hout). }
  exists l, (foldl (fun st j => autoFolded j st) s l).
  split; [exact Heq|].
  destruct (foldl_autoFolded_effect l s Hwf)
    as (_ & Hact & Hfold & Hstack & Hcontr).
  { intros j Hj. exact (proj1 (Forall_forall _ _) Hl j Hj). }
  destruct (foldl_autoFolded_street l s)
    as (Hph & Hpot & _ & Hbet & Hla & Hrc & Hcur & Hw).
  split; [exact Hact|]. split; [exact Hfold|].
  split; [intros j; split; [apply Hstack | apply Hcontr]|].
  repeat split; assumption.
Qed.

Lemma skip_only_folds_witness :
  let s := new_engine None 100 in
  exists (l : list Z) (s1 : Engine),
    autoFoldBetween 2 5 s = Returned s1 /\
    map performed (actions s1)
    = map performed (actions s) ++ map (fun j => (position_at j, Fold)) l /\
    (pot (street s1) == pot (street s))%Q.
Proof.
  intros s.
  destruct (skip_only_folds s 2 5)
    as (l & s1 & Hrun & Hact & _ & _ & Hpot & _).
  - reflexivity.
  - exists l, s1. split; [exact Hrun|]. split; [exact Hact | exact Hpot].
Defined.

(** ** The raise label *)

Lemma betting_contract_base (s : Engine) :
  reachable s ->
  0 <= raiseCount (street s) /\
  (phase (street s) <> Preflop ->
     raiseCount (street s) = 0 -> (currentBet (street s) == 0)%Q) /\
  (0 < raiseCount (street s) -> (0 < currentBet (street s))%Q).
Proof.
  intros Hr.
  destruct (books_reachable s Hr)
    as [_ [_ (Hrc & _ & _ & _ & Hpost & Hpos)]].
  split; [exact Hrc|]. split; assumption.
Qed.

(** X24. On Preflop the label is "Open" before the first raise and
    otherwise the decimal of [raiseCount + 2] followed by "-bet" (the
    hard-coded "3-bet" and "4-bet" agree with that pattern).  On the later
    streets of a reachable state the label follows the number of bets and
    raises of the street: "Bet" for none, "Raise" for one, "Re-raise" for
    more. *)
Theorem raise_label_follows_raise_count (s : Engine) :
  (getPhase s = Preflop ->
     (getRaiseCount s = 0 -> getRaiseLabel s = "Open") /\
     (getRaiseCount s <> 0 ->
        getRaiseLabel s = pretty (getRaiseCount s + 2) +:+ "-bet")) /\
  (reachable s -> getPhase s <> Preflop ->
     (getRaiseCount s = 0 -> getRaiseLabel s = "Bet") /\
     (getRaiseCount s = 1 -> getRaiseLabel s = "Raise") /\
     (2 <= getRaiseCount s -> getRaiseLabel s = "Re-raise")).
Proof.
  unfold getPhase, getRaiseCount, getRaiseLabel. split.
  - intros Hph. rewrite (bool_decide_eq_true_2 _ Hph). split.
    + intros ->. reflexivity.
    + intros Hne.
      replace (raiseCount (street s) =? 0) with false by (symmetry; lia).
      destruct (raiseCount (street s) =? 1) eqn:E1.
      { apply Z.eqb_eq in E1. rewrite E1. vm_compute. reflexivity. }
      destruct (raiseCount (street s) =? 2) eqn:E2.
      { apply Z.eqb_eq in E2. rewrite E2. vm_compute. reflexivity. }
      reflexivity.
  - intros Hr Hph.
    destruct (betting_contract_base s Hr) as (Hrc & Hzero & Hpos).
    rewrite (bool_decide_eq_false_2 _ Hph).
    split; [|split].
    + intros Hz. specialize (Hzero Hph Hz). apply num_eq_spec in Hzero.
      rewrite Hzero. reflexivity.
    + intros H1.
      replace (num_eq (currentBet (street s)) 0) with false.
      * rewrite H1. reflexivity.
      * symmetry. destruct (num_eq (currentBet (street s)) 0) eqn:E;
          [|reflexivity].
        apply num_eq_spec in E. assert (Hp : 0 < raiseCount (street s)) by lia.
        specialize (Hpos Hp). lra.
    + intros H2.
      replace (num_eq (currentBet (street s)) 0) with false.
      * replace (raiseCount (street s) =? 1) with false by (symmetry; lia).
        reflexivity.
      * symmetry. destruct (num_eq (currentBet (street s)) 0) eqn:E;
          [|reflexivity].
        apply num_eq_spec in E. assert (Hp : 0 < raiseCount (street s)) by lia.
        specialize (Hpos Hp). lra.
Qed.

Lemma raise_label_follows_raise_count_witness :
  let s := flop_bet_state in
  getPhase s <> Preflop /\ getRaiseCount s = 1 /\ getRaiseLabel s = "Raise".
Proof.
  intros s.
  assert (Hph : getPhase s <> Preflop) by (vm_compute; discriminate).
  assert (H1 : getRaiseCount s = 1) by (vm_compute; reflexivity).
  split; [exact Hph|]. split; [exact H1|].
  destruct (raise_label_follows_raise_count s) as [_ Hpost].
  destruct (Hpost reachable_flop_bet_state Hph) as (_ & Hraise & _).
  exact (Hraise H1).
Defined.

(** * The views of the user interface *)

(** ** The action panel *)

Lemma existsb_filter {A} (f g : A -> bool) (l : list A) :
  existsb (fun x => f x && g x) l = existsb f (List.filter g l).
Proof.
  induction l as [|x l IH]; simpl; [reflexivity|].
  destruct (g x); simpl; rewrite IH.
  - rewrite andb_true_r. reflexivity.
  - rewrite andb_false_r. reflexivity.
Qed.

Lemma filter_current_phase (s : Engine) :
  journal s ->
  List.filter (fun r => bool_decide (a_phase r = phase (street s))) (actions s)
  = actionsThisStreet (street s).
Proof.
  intros ((old & Hold & Holdlt) & Hats & _).
  rewrite Hold, List.filter_app.
  rewrite (filter_none _ old).
  - simpl. apply filter_all.
    eapply Forall_impl; [exact Hats|]. simpl. intros r Hr0.
    apply bool_decide_eq_true_2. exact Hr0.
  - intros r Hin. apply bool_decide_eq_false_2. intros Heq.
    apply list_elem_of_In in Hin.
    pose proof (proj1 (Forall_forall _ _) Holdlt r Hin) as Hlt.
    simpl in Hlt. rewrite Heq in Hlt. lia.
Qed.

Lemma panel_find_at (s : Engine) (pos : Position) :
  map position (players s) = POSITION_ORDER ->
  panel_find (enhancedState s) pos
  = Some (panel_player (player_at (players s) (getPlayerIndex pos))).
Proof.
  intros Hpos. unfold panel_find, enhancedState, getState. simpl.
  destruct (players s) as [|p0 [|p1 [|p2 [|p3 [|p4 [|p5 [|]]]]]]];
    try discriminate.
  injection Hpos as H0 H1 H2 H3 H4 H5.
  simpl. rewrite H0, H1, H2, H3, H4, H5.
  destruct pos; reflexivity.
Qed.

(** X25. The marks the action panel computes for a seat from the state it
    is handed are the engine's own flags: in every reachable state
    [hasActed(position)] is the seat's [hasActedThisStreet],
    [hasFolded(position)] is its [folded], and [isActive(position)] is the
    negation of [folded]. *)
Theorem panel_marks_are_engine_flags (s : Engine) (pos : Position) :
  reachable s ->
  let p := player_at (players s) (getPlayerIndex pos) in
  hasActed (enhancedState s) pos = hasActedThisStreet p /\
  hasFolded (enhancedState s) pos = folded p /\
  isActive (enhancedState s) pos = negb (folded p).
Proof.
  intros Hr p.
  destruct (journal_reachable s Hr) as [_ Hj].
  destruct (flags_ok_reachable s Hr) as [_ Hfl].
  destruct (seats_ok_reachable s Hr) as [_ [Hpos _]].
  assert (Hf : hasFolded (enhancedState s) pos = folded p).
  { unfold hasFolded. rewrite (panel_find_at s pos Hpos). reflexivity. }
  split; [|split; [exact Hf | unfold isActive; rewrite Hf; reflexivity]].
  unfold hasActed, enhancedState, getState. simpl.
  rewrite existsb_filter, (filter_current_phase s Hj).
  destruct (Hfl _ (getPlayerIndex_range pos)) as [Ha _].
  unfold p. rewrite Ha. unfold by_seat.
  rewrite position_at_getPlayerIndex. reflexivity.
Qed.

Lemma panel_marks_are_engine_flags_witness :
  let s := flop_bet_state in
  let p := player_at (players s) (getPlayerIndex BB) in
  hasActed (enhancedState s) BB = hasActedThisStreet p /\
  hasFolded (enhancedState s) BB = folded p /\
  isActive (enhancedState s) BB = negb (folded p).
Proof.
  intros s. apply (panel_marks_are_engine_flags s BB).
  exact reachable_flop_bet_state.
Defined.

Lemma reachable_utg_all_in_state : reachable utg_all_in_state.
Proof. apply reachable_run_all. apply reachable_new. Qed.

(** X26. The actions the panel offers for a seat, against the engine's
    [getAvailableActions]: for the current actor they are the engine's
    list; after the flop every other seat gets none; before the flop the
    panel's own rule for the other seats gives the engine's list when the
    seat is folded or has at least 0.01 left, but for a seat that is all-in
    (not folded, stack below 0.01) the engine offers nothing while the
    panel still offers Check and Raise, or Fold, Call and Raise. *)
Theorem panel_actions_against_engine (s : Engine) (pos : Position) :
  reachable s ->
  let st := enhancedState s in
  let p := player_at (players s) (getPlayerIndex pos) in
  (getCurrentActor s = Some pos ->
     getActionsForPosition st pos = getAvailableActions s pos) /\
  (getCurrentActor s <> Some pos -> phase (street s) <> Preflop ->
     getActionsForPosition st pos = []) /\
  (getCurrentActor s <> Some pos -> phase (street s) = Preflop ->
     folded p = true \/ (eps <= stack p)%Q ->
     getActionsForPosition st pos = getAvailableActions s pos) /\
  (getCurrentActor s <> Some pos -> phase (street s) = Preflop ->
     folded p = false -> (stack p < eps)%Q ->
     getAvailableActions s pos = [] /\
     getActionsForPosition st pos
     = if canCheck s pos then [Check; Raise] else [Fold; Call; Raise]).
Proof.
  intros Hr st p.
  destruct (seats_ok_reachable s Hr) as [_ [Hpos _]].
  pose proof (panel_find_at s pos Hpos) as Hfind. fold st in Hfind.
  fold p in Hfind.
  assert (Hph : ps_currentPhase st = phase (street s)) by reflexivity.
  assert (Hca : ps_currentActor st = getCurrentActor s) by reflexivity.
  assert (Hcb : ps_currentBet st = currentBet (street s)) by reflexivity.
  split; [|split; [|split]].
  - intros Hact. unfold getActionsForPosition. rewrite Hca, Hact.
    rewrite (bool_decide_eq_true_2 (Some pos = Some pos)) by reflexivity.
    rewrite andb_false_r.
    unfold st, enhancedState, getState. simpl. rewrite Hact.
    destruct (waitingForBoard s) eqn:Hw; [|reflexivity].
    rewrite (getCurrentActor_waiting s Hw) in Hact. discriminate.
  - intros Hact Hpost. unfold getActionsForPosition. rewrite Hca, Hph.
    rewrite (bool_decide_eq_false_2 (phase (street s) = Preflop))
      by exact Hpost.
    rewrite (bool_decide_eq_false_2 (Some pos = getCurrentActor s))
      by congruence.
    reflexivity.
  - intros Hact Hpre Hok. unfold getActionsForPosition.
    rewrite Hca, Hph, Hcb, Hfind.
    rewrite (bool_decide_eq_true_2 (phase (street s) = Preflop))
      by exact Hpre.
    rewrite (bool_decide_eq_false_2 (getCurrentActor s = Some pos))
      by exact Hact.
    simpl. unfold getAvailableActions, canCheck. fold p.
    rewrite (bool_decide_eq_true_2 (phase (street s) = Preflop))
      by exact Hpre.
    destruct (folded p) eqn:Ef; [reflexivity|].
    destruct Hok as [Hok | Hok]; [discriminate|].
    replace (num_lt (stack p) eps) with false; [reflexivity|].
    symmetry. destruct (num_lt (stack p) eps) eqn:E; [|reflexivity].
    apply num_lt_spec in E. lra.
  - intros Hact Hpre Hnf Hlow. split.
    + unfold getAvailableActions. fold p. rewrite Hnf.
      rewrite (proj2 (num_lt_spec _ _) Hlow). reflexivity.
    + unfold getActionsForPosition.
      rewrite Hca, Hph, Hcb, Hfind.
      rewrite (bool_decide_eq_true_2 (phase (street s) = Preflop))
        by exact Hpre.
      rewrite (bool_decide_eq_false_2 (getCurrentActor s = Some pos))
        by exact Hact.
      simpl. unfold canCheck. fold p. rewrite Hnf. reflexivity.
Qed.

Lemma panel_actions_against_engine_witness :
  let s := utg_all_in_state in
  getActionsForPosition (enhancedState s) HJ = getAvailableActions s HJ /\
  getAvailableActions s UTG = [] /\
  getActionsForPosition (enhancedState s) UTG
  = (if canCheck s UTG then [Check; Raise] else [Fold; Call; Raise]).
Proof.
  intros s.
  destruct (panel_actions_against_engine s HJ reachable_utg_all_in_state)
    as (Hactor & _).
  destruct (panel_actions_against_engine s UTG reachable_utg_all_in_state)
    as (_ & _ & _ & Hallin).
  split; [apply Hactor; vm_compute; reflexivity|].
  apply Hallin.
  - vm_compute. discriminate.
  - vm_compute. reflexivity.
  - vm_compute. reflexivity.
  - vm_compute. reflexivity.
Defined.

(** ** The action log *)













Lemma group_filter (l : list HandAction) (ph : Phase) :
  group (groupActionsByPhase l) ph
  = List.filter (fun r => bool_decide (a_phase r = ph)) l.
Proof.
  unfold groupActionsByPhase.
  induction l as [|r l IH] using rev_ind; [destruct ph; reflexivity|].
  rewrite foldl_app, List.filter_app. simpl. rewrite <- IH.
  unfold push_group.
  destruct (a_phase r), ph; simpl; rewrite ?app_nil_r; reflexivity.
Qed.

Lemma ordered_cons_inv {A} (R : A -> A -> Prop) (x : A) (l : list A) :
  ordered R (x :: l) -> Forall (R x) l /\ ordered R l.
Proof.
  intros H. split.
  - apply Forall_lookup. intros i y Hy.
    apply (H 0%nat (S i) x y); [lia | reflexivity | exact Hy].
  - intros i j y z Hij Hy Hz.
    apply (H (S i) (S j) y z); [lia | exact Hy | exact Hz].
Qed.

Lemma filter_later_phase (ph px : Phase) (l : list HandAction) :
  Forall (fun y => phase_index px <= phase_index (a_phase y)) l ->
  phase_index ph < phase_index px ->
  List.filter (fun r => bool_decide (a_phase r = ph)) l = [].
Proof.
  intros Hall Hlt. apply filter_none. intros y Hy.
  apply bool_decide_eq_false_2. intros Heq.
  apply list_elem_of_In in Hy.
  pose proof (proj1 (Forall_forall _ _) Hall y Hy) as Hle.
  simpl in Hle. rewrite Heq in Hle. lia.
Qed.

Lemma groups_concat (l : list HandAction) :
  ordered (fun r1 r2 => phase_index (a_phase r1) <= phase_index (a_phase r2))
          l ->
  let g := groupActionsByPhase l in
  g_Preflop g ++ g_Flop g ++ g_Turn g ++ g_River g = l.
Proof.
  intros Hord g.
  change (group g Preflop ++ group g Flop ++ group g Turn ++ group g River
          = l).
  unfold g. rewrite !group_filter. clear g.
  induction l as [|x l IH]; [reflexivity|].
  apply ordered_cons_inv in Hord. destruct Hord as [Hall Hord].
  specialize (IH Hord). simpl.
  destruct (a_phase x) eqn:E; simpl.
  - rewrite IH. reflexivity.
  - rewrite (filter_later_phase Preflop Flop l Hall) in *
      by (vm_compute; reflexivity).
    simpl in *. rewrite IH. reflexivity.
  - rewrite (filter_later_phase Preflop Turn l Hall) in *
      by (vm_compute; reflexivity).
    rewrite (filter_later_phase Flop Turn l Hall) in *
      by (vm_compute; reflexivity).
    simpl in *. rewrite IH. reflexivity.
  - rewrite (filter_later_phase Preflop River l Hall) in *
      by (vm_compute; reflexivity).
    rewrite (filter_later_phase Flop River l Hall) in *
      by (vm_compute; reflexivity).
    rewrite (filter_later_phase Turn River l Hall) in *
      by (vm_compute; reflexivity).
    simpl in *. rewrite IH. reflexivity.
Qed.

Lemma summary_phases_spec (l : list HandAction) (ph : Phase) :
  In ph (summary_phases l) <-> group (groupActionsByPhase l) ph <> [].
Proof.
  unfold summary_phases, entries.
  destruct (groupActionsByPhase l) as [[|a0 l0] [|a1 l1] [|a2 l2] [|a3 l3]];
    destruct ph; simpl; intuition congruence.
Qed.

Lemma potByPhase_group (l : list HandAction) (ph : Phase) (r : HandAction) :
  last (group (groupActionsByPhase l) ph) = Some r ->
  In (ph, a_potSize r) (potByPhase l).
Proof.
  unfold potByPhase, entries. intros H.
  destruct ph; simpl in H; simpl; rewrite H; tauto.
Qed.

(** X28. The groups the action log forms from the engine's history are the
    streets of the hand: put one after the other in phase order they give
    the history back, the group of the current phase is [actionsThisStreet],
    the groups of later phases are empty, [summary.phases] lists no phase
    after the current one, and once the current street has a record
    [potByPhase] gives the engine's pot for the current phase. *)
Theorem action_log_groups_are_streets (s : Engine) :
  reachable s ->
  let g := groupActionsByPhase (actions s) in
  g_Preflop g ++ g_Flop g ++ g_Turn g ++ g_River g = actions s /\
  group g (phase (street s)) = actionsThisStreet (street s) /\
  (forall ph, phase_index (phase (street s)) < phase_index ph ->
              group g ph = []) /\
  (forall ph, In ph (summary_phases (actions s)) ->
              phase_index ph <= phase_index (phase (street s))) /\
  (actionsThisStreet (street s) <> [] ->
   In (phase (street s), pot (street s)) (potByPhase (actions s))).
Proof.
  intros Hr g.
  destruct (journal_reachable s Hr) as [_ Hj].
  pose proof (filter_current_phase s Hj) as Hcur.
  destruct Hj as ((old & Hold & Holdlt) & Hats & Hoph & _ & _ & _ & _ & Hlast).
  assert (Hlater : forall ph, phase_index (phase (street s)) < phase_index ph ->
                              group g ph = []).
  { intros ph Hlt. unfold g. rewrite group_filter.
    apply filter_none. intros r Hin. apply bool_decide_eq_false_2.
    intros Heq. rewrite Hold in Hin. apply in_app_or in Hin.
    destruct Hin as [Hin | Hin]; apply list_elem_of_In in Hin.
    - pose proof (proj1 (Forall_forall _ _) Holdlt r Hin) as Hlt'.
      simpl in Hlt'. rewrite Heq in Hlt'. lia.
    - pose proof (proj1 (Forall_forall _ _) Hats r Hin) as Heq'.
      simpl in Heq'. rewrite <- Heq', Heq in Hlt. lia. }
  assert (Hgrp : group g (phase (street s)) = actionsThisStreet (street s)).
  { unfold g. rewrite group_filter. exact Hcur. }
  split; [exact (groups_concat _ Hoph)|].
  split; [exact Hgrp|]. split; [exact Hlater|]. split.
  - intros ph Hin. apply summary_phases_spec in Hin. fold g in Hin.
    destruct (Z_lt_le_dec (phase_index (phase (street s))) (phase_index ph))
      as [Hlt | Hle]; [|exact Hle].
    exfalso. exact (Hin (Hlater ph Hlt)).
  - intros Hne.
    destruct (actionsThisStreet (street s)) as [|r0 ats] eqn:Eats using rev_ind;
      [congruence|].
    clear IHats.
    assert (Hl : last (actions s) = Some r0).
    { rewrite Hold, app_assoc. apply last_snoc. }
    rewrite <- (Hlast r0 Hl).
    apply potByPhase_group. fold g. rewrite Hgrp. apply last_snoc.
Qed.

Lemma action_log_groups_are_streets_witness :
  let s := flop_bet_state in
  let g := groupActionsByPhase (actions s) in
  g_Preflop g ++ g_Flop g ++ g_Turn g ++ g_River g = actions s /\
  group g (phase (street s)) = actionsThisStreet (street s) /\
  (forall ph, phase_index (phase (street s)) < phase_index ph ->
              group g ph = []) /\
  (forall ph, In ph (summary_phases (actions s)) ->
              phase_index ph <= phase_index (phase (street s))) /\
  (actionsThisStreet (street s) <> [] ->
   In (phase (street s), pot (street s)) (potByPhase (actions s))).
Proof.
  intros s. apply (action_log_groups_are_streets s).
  exact reachable_flop_bet_state.
Defined.

(** ** The state snapshot *)

(** X29. In every reachable state the snapshot of [getState()] names no
    current actor exactly when it reports the hand complete or the engine
    waiting for the board.  When it names a seat, that seat is the one at
    [currentActorIndex] and the action list handed to the panel is the
    engine's list for that seat; when it names none, the list handed to the
    panel is empty. *)
Theorem snapshot_actor_null_iff_complete_or_waiting (s : Engine) :
  reachable s ->
  let state := getState s in
  (es_currentActor state = None <->
   es_isComplete state = true \/ es_waitingForBoard state = true) /\
  (forall pos, es_currentActor state = Some pos ->
     getPlayerIndex pos = currentActorIndex s /\
     ps_availableActions (enhancedState s) = getAvailableActions s pos) /\
  (es_currentActor state = None ->
     ps_availableActions (enhancedState s) = []).
Proof.
  intros Hr state. destruct (gate_ok_reachable s Hr) as [_ [_ Hc]].
  unfold state, getState, enhancedState. simpl.
  split; [|split].
  - split.
    + unfold getCurrentActor.
      destruct (isHandComplete s || waitingForBoard s) eqn:E.
      * intros _. apply orb_true_iff in E. exact E.
      * apply orb_false_iff in E. destruct E as [Hcomp Hw].
        destruct (currentActorIndex s <? 0) eqn:E0.
        -- apply Z.ltb_lt in E0. exfalso.
           unfold isHandComplete in Hcomp.
           destruct (getActivePlayerCount s <=? 1); [discriminate|].
           replace (currentActorIndex s) with (-1) in Hcomp by lia.
           rewrite Hw in Hcomp. discriminate.
        -- apply Z.ltb_ge in E0. intros Hnone. exfalso.
           apply lookup_ge_None in Hnone. simpl in Hnone. lia.
    + intros [Hcomp | Hw]; unfold getCurrentActor.
      * rewrite Hcomp. reflexivity.
      * rewrite Hw, orb_true_r. reflexivity.
  - intros pos Hact. split; [exact (getCurrentActor_Some s pos Hact)|].
    rewrite Hact. destruct (waitingForBoard s) eqn:Hw; [|reflexivity].
    rewrite (getCurrentActor_waiting s Hw) in Hact. discriminate.
  - intros Hnone. rewrite Hnone. reflexivity.
Qed.

Lemma snapshot_actor_null_iff_complete_or_waiting_witness :
  let s := flop_bet_state in
  let state := getState s in
  (es_currentActor state = None <->
   es_isComplete state = true \/ es_waitingForBoard state = true) /\
  (forall pos, es_currentActor state = Some pos ->
     getPlayerIndex pos = currentActorIndex s /\
     ps_availableActions (enhancedState s) = getAvailableActions s pos) /\
  (es_currentActor state = None ->
     ps_availableActions (enhancedState s) = []).
Proof.
  intros s. apply (snapshot_actor_null_iff_complete_or_waiting s).
  exact reachable_flop_bet_state.
Defined.
